(** * Composition-formula parser and stoichiometric mass calculator

    A shallow embedding of [src/main.py]: the tokenizer and the stack
    parser of [parse_formula], [get_atomic_weight], and the buttons and
    tables of [main].

    Conventions of the embedding.
    - A Python [str] is a [string]; its characters are the code points
      below 256, among which the classes [[A-Z]], [[a-z]] and [\d] of the
      regular expressions are exactly the ASCII ones.
    - A Python [dict] is an association list in insertion order with
      pairwise distinct keys ([dict_get], [dict_set], [dict_wf]).
    - The list [stack] is kept with its last element first: the head of
      the Rocq list is [stack[-1]], its last element is [stack[0]].  In
      [parse_loop] the stack holds the dictionaries themselves and an
      update in place is the replacement of a value; in [store_loop] it
      holds the addresses of dictionary objects in a store that every call
      receives and hands on, and the updates are writes to the store.  The
      two are proved to agree.
    - The loop index [i] over the immutable list [matches] is the suffix
      [matches[i:]] in [parse_loop], and a number in [loop_body], which
      transcribes one iteration of the [while]; [while_loop] relates the
      two, and they are proved to agree.
    - Python [float] arithmetic is an interface ([PyFloat]) without laws;
      its instance is IEEE binary64 (the primitive floats of Rocq), which
      is what the program runs on.  What is proved for every instance
      holds of it.
    - Exceptions are constructors of [exn]; what the "Calculate" button
      ends in (an error message, an uncaught exception, the table) is an
      [outcome].
    - [periodictable] is outside the repository: what the expression
      [periodictable.elements.symbol(element).mass] evaluates to, a mass
      or an exception, is a parameter [symbol_mass : string -> result F],
      and [get_atomic_weight] (lines 31-36) is defined on it. *)

From Stdlib Require Import List String Ascii Bool Arith ZArith Lia.
From Stdlib Require Import DecimalString.
From Stdlib Require Import PrimFloat SpecFloat FloatOps.
From Stdlib Require FloatAxioms.
Import ListNotations.

Open Scope string_scope.

(** ** Characters and the patterns of [re.findall] *)

Definition is_upper (c : ascii) : bool :=
  let n := nat_of_ascii c in (65 <=? n)%nat && (n <=? 90)%nat.

Definition is_lower (c : ascii) : bool :=
  let n := nat_of_ascii c in (97 <=? n)%nat && (n <=? 122)%nat.

Definition is_digit (c : ascii) : bool :=
  let n := nat_of_ascii c in (48 <=? n)%nat && (n <=? 57)%nat.

Definition is_dot (c : ascii) : bool := Ascii.eqb c "."%char.

(** The longest run of digits at the head of [s]: what a greedy [\d*]
    takes first. *)
Fixpoint digits_of (s : string) : string :=
  match s with
  | String c rest => if is_digit c then String c (digits_of rest) else ""
  | "" => ""
  end.

Fixpoint after_digits (s : string) : string :=
  match s with
  | String c rest => if is_digit c then after_digits rest else s
  | "" => ""
  end.

Definition nonempty (s : string) : bool :=
  match s with "" => false | _ => true end.

(** [re.match(r"[A-Z][a-z]?", s)]: the matched text, if any. *)
Definition match_element (s : string) : option string :=
  match s with
  | String c rest =>
      if is_upper c then
        match rest with
        | String c2 _ =>
            if is_lower c2 then Some (String c (String c2 "")) else Some (String c "")
        | "" => Some (String c "")
        end
      else None
  | "" => None
  end.

(** [re.match(r"\d*\.?\d+", s)]: the matched text, if any.  [\d*] takes
    the whole run of digits; if a dot and at least one digit follow, the
    match is [digits . digits]; otherwise the engine backtracks, gives one
    digit of the run back to [\d+], and the match is the run itself, which
    must then be non-empty. *)
Definition match_number (s : string) : option string :=
  let int_part := digits_of s in
  let backtracked := if nonempty int_part then Some int_part else None in
  match after_digits s with
  | String c rest =>
      if is_dot c then
        let frac_part := digits_of rest in
        if nonempty frac_part then Some (int_part ++ String c frac_part)
        else backtracked
      else backtracked
  | "" => backtracked
  end.

(** One attempt of the whole pattern
    [([A-Z][a-z]?|\d*\.?\d+|\(|\))] at the head of [s], alternatives in
    order. *)
Definition match_token (s : string) : option string :=
  match match_element s with
  | Some t => Some t
  | None =>
      match match_number s with
      | Some t => Some t
      | None =>
          match s with
          | String c _ =>
              if Ascii.eqb c "("%char then Some "("
              else if Ascii.eqb c ")"%char then Some ")"
              else None
          | "" => None
          end
      end
  end.

(** [re.findall]: scan left to right; at a position where the pattern
    matches, emit the text and resume after it; elsewhere move on by one
    character.  [skip] counts the characters of the last match still to be
    passed over. *)
Fixpoint findall_from (skip : nat) (s : string) : list string :=
  match s with
  | "" => []
  | String _ rest =>
      match skip with
      | S k => findall_from k rest
      | O =>
          match match_token s with
          | Some t => t :: findall_from (String.length t - 1) rest
          | None => findall_from 0 rest
          end
      end
  end.

Definition findall (formula : string) : list string := findall_from 0 formula.

Definition is_number (token : string) : bool :=
  match match_number token with Some _ => true | None => false end.

Definition is_element (token : string) : bool :=
  match match_element token with Some _ => true | None => false end.

(** ** Dictionaries *)

Abbreviation dict V := (list (string * V)).

Fixpoint dict_get {V : Type} (d : dict V) (key : string) : option V :=
  match d with
  | [] => None
  | (k, v) :: rest => if String.eqb k key then Some v else dict_get rest key
  end.

(** [d[key] = value]: an existing key keeps its place, a new key goes to
    the end. *)
Fixpoint dict_set {V : Type} (d : dict V) (key : string) (value : V) : dict V :=
  match d with
  | [] => [(key, value)]
  | (k, v) :: rest =>
      if String.eqb k key then (k, value) :: rest
      else (k, v) :: dict_set rest key value
  end.

Definition keys {V : Type} (d : dict V) : list string := map fst d.

Definition dict_wf {V : Type} (d : dict V) : Prop := NoDup (keys d).

(** ** Exceptions *)

Inductive exn : Type :=
| IndexError          (* pop from empty list, list index out of range *)
| ValueError          (* could not convert string to float *)
| KeyError            (* composition[selected_elem] *)
| ZeroDivisionError   (* float division by zero *)
| AttributeError.     (* the one exception [get_atomic_weight] catches *)

Inductive result (A : Type) : Type :=
| Ok (value : A)
| Raise (e : exn).

Arguments Ok {A} value.
Arguments Raise {A} e.

Definition bind {A B : Type} (r : result A) (k : A -> result B) : result B :=
  match r with
  | Ok a => k a
  | Raise e => Raise e
  end.

Notation "x <- r ;; k" := (bind r (fun x => k))
  (at level 61, r at next level, right associativity).

(** ** The arithmetic of Python floats, as an interface *)

Class PyFloat (F : Type) : Type := {
  fzero : F;                        (* the default [0] of [dict.get], as an addend *)
  fone : F;                         (* [1.0] *)
  fadd : F -> F -> F;               (* [x + y] *)
  fmul : F -> F -> F;               (* [x * y] *)
  fdiv : F -> F -> option F;        (* [x / y]; [None] is ZeroDivisionError *)
  le_zero : F -> bool;              (* [x <= 0] *)
  truthy : F -> bool;               (* [if x:] *)
  of_decimal : Z -> nat -> F;       (* [float] of the literal [m / 10^k] *)
  format_5f : F -> string           (* [f"{x:.5f}"] *)
}.

(** The digits of a literal, read in base ten. *)
Fixpoint digits_value (acc : Z) (s : string) : Z :=
  match s with
  | String c rest => digits_value (10 * acc + (Z.of_nat (nat_of_ascii c) - 48)) rest
  | "" => acc
  end.

Section Parser.

Context {F : Type} {PF : PyFloat F}.

(** [float(token)] on plain decimal literals ([12], [1.5], [.5], [5.]),
    the only strings the number pattern lets through; any other string is
    answered with [ValueError]. *)
Definition float_of_token (token : string) : result F :=
  let int_part := digits_of token in
  match after_digits token with
  | "" =>
      if nonempty int_part then Ok (of_decimal (digits_value 0 int_part) 0)
      else Raise ValueError
  | String c rest =>
      if is_dot c then
        let frac_part := digits_of rest in
        match after_digits rest with
        | "" =>
            if nonempty int_part || nonempty frac_part then
              Ok (of_decimal (digits_value 0 (int_part ++ frac_part))
                             (String.length frac_part))
            else Raise ValueError
        | String _ _ => Raise ValueError
        end
      else Raise ValueError
  end.

(** [d[elem] = d.get(elem, 0) + amount] *)
Definition dict_add (d : dict F) (elem : string) (amount : F) : dict F :=
  dict_set d elem
    (fadd (match dict_get d elem with Some v => v | None => fzero end) amount).

(** [for elem, cnt in group.items(): top[elem] = top.get(elem, 0) + cnt * multiplier] *)
Definition merge_group (top group : dict F) (multiplier : F) : dict F :=
  fold_left (fun acc (item : string * F) =>
               dict_add acc (fst item) (fmul (snd item) multiplier))
            group top.

(** Lines 62-71: the close-bracket branch once the multiplier is known. *)
Definition close_group (stack : list (dict F)) (multiplier : F)
  : result (list (dict F)) :=
  match stack with
  | [] => Raise IndexError                      (* stack.pop() *)
  | group :: popped =>
      match group with
      | [] => Ok popped                         (* the for loop does not run *)
      | _ :: _ =>
          match popped with
          | [] => Raise IndexError              (* stack[-1] *)
          | top :: below => Ok (merge_group top group multiplier :: below)
          end
      end
  end.

(** Line 81: [stack[-1][elem] = stack[-1].get(elem, 0) + count] *)
Definition add_element (stack : list (dict F)) (elem : string) (count : F)
  : result (list (dict F)) :=
  match stack with
  | [] => Raise IndexError
  | top :: below => Ok (dict_add top elem count :: below)
  end.

(** The multiplier or count read from the token after the current one,
    [1.0] when there is none or it is no number. *)
Definition number_or_one (next : option string) : result F :=
  match next with
  | Some token => if is_number token then float_of_token token else Ok fone
  | None => Ok fone
  end.

(** Lines 55-82, the [while] loop; [matches] is [matches[i:]]. *)
Fixpoint parse_loop (matches : list string) (stack : list (dict F))
  : result (list (dict F)) :=
  match matches with
  | [] => Ok stack
  | token :: rest =>
      if String.eqb token "(" then
        parse_loop rest ([] :: stack)
      else if String.eqb token ")" then
        (* [i += 1] here and again on line 82: the token after the bracket
           is passed over, number or not *)
        multiplier <- number_or_one (hd_error rest) ;;
        stack' <- close_group stack multiplier ;;
        match rest with
        | [] => Ok stack'
        | _ :: rest' => parse_loop rest' stack'
        end
      else if is_element token then
        match rest with
        | next :: rest' =>
            if is_number next then
              count <- float_of_token next ;;
              stack' <- add_element stack token count ;;
              parse_loop rest' stack'
            else
              stack' <- add_element stack token fone ;;
              parse_loop rest stack'
        | [] => add_element stack token fone
        end
      else
        parse_loop rest stack
  end.

(** Line 84: [return stack[0]] *)
Definition stack_root (stack : list (dict F)) : result (dict F) :=
  match stack with
  | [] => Raise IndexError
  | top :: below => Ok (last below top)
  end.

Definition parse_tokens (matches : list string) : result (dict F) :=
  stack <- parse_loop matches [[]] ;;
  stack_root stack.

Definition parse_formula (formula : string) : result (dict F) :=
  parse_tokens (findall formula).

(** Every close-bracket of [tokens] closes a group opened before it
    ([open_groups] are open at the start) and is followed by a number or by
    nothing. *)
Fixpoint brackets_ok (open_groups : nat) (tokens : list string) : bool :=
  match tokens with
  | [] => true
  | token :: rest =>
      if String.eqb token "(" then brackets_ok (S open_groups) rest
      else if String.eqb token ")" then
        match open_groups with
        | O => false
        | S n =>
            match rest with
            | [] => true
            | next :: _ => is_number next
            end && brackets_ok n rest
        end
      else brackets_ok open_groups rest
  end.

(** *** The loop with its index

    One iteration of the [while] (lines 57-82) at index [i], returning
    the index and the stack the next test of the loop condition sees. *)
Definition loop_body (matches : list string) (i : nat) (stack : list (dict F))
  : result (nat * list (dict F)) :=
  match nth_error matches i with
  | None => Raise IndexError
  | Some token =>
      if String.eqb token "(" then
        Ok (i + 1, [] :: stack)
      else if String.eqb token ")" then
        let i := i + 1 in
        multiplier <- number_or_one (nth_error matches i) ;;
        stack' <- close_group stack multiplier ;;
        Ok (i + 1, stack')
      else if is_element token then
        match nth_error matches (i + 1) with
        | Some next =>
            if is_number next then
              count <- float_of_token next ;;
              stack' <- add_element stack token count ;;
              Ok (i + 1 + 1, stack')
            else
              stack' <- add_element stack token fone ;;
              Ok (i + 1, stack')
        | None =>
            stack' <- add_element stack token fone ;;
            Ok (i + 1, stack')
        end
      else Ok (i + 1, stack)
  end.

(** [while i < len(matches): body] as a relation between the state at the
    loop head and what the loop ends in. *)
Inductive while_loop (matches : list string)
  : nat -> list (dict F) -> result (list (dict F)) -> Prop :=
| while_exit : forall i stack,
    List.length matches <= i ->
    while_loop matches i stack (Ok stack)
| while_iter : forall i stack i' stack' r,
    i < List.length matches ->
    loop_body matches i stack = Ok (i', stack') ->
    while_loop matches i' stack' r ->
    while_loop matches i stack r
| while_raise : forall i stack e,
    i < List.length matches ->
    loop_body matches i stack = Raise e ->
    while_loop matches i stack (Raise e).

(** A call of [parse_formula]: fresh [stack = [{}]] and [i = 0], the loop,
    then [stack[0]]. *)
Inductive parses (formula : string) : result (dict F) -> Prop :=
| parses_call : forall final,
    while_loop (findall formula) 0 [[]] final ->
    parses formula (stack <- final ;; stack_root stack).

(** *** Groups as lists of contributions

    Following the words of the specification: a Group receives
    contributions, one per element symbol read at its level and one per
    symbol of each sub-group closed into it (the sub-group's coefficient
    times the bracket multiplier); the coefficient of a symbol is the sum
    of the contributions it received, in the order received.

    [contribution_loop] hands out the contributions of the tokens as the
    loop of the code reads them; [spec_contribution_loop] reads the tokens
    as the algorithm of the specification does, where a close-bracket takes
    the next token only if it is a number. *)
Definition contributions : Type := list (string * F).

Definition received (elem : string) (group : contributions) : list F :=
  map snd (filter (fun item => String.eqb (fst item) elem) group).

(** The sum [((0 + a1) + a2) + ...], in the order received. *)
Definition sum_of (amounts : list F) : F := fold_left fadd amounts fzero.

Definition coefficient (elem : string) (group : contributions) : option F :=
  match received elem group with
  | [] => None
  | amounts => Some (sum_of amounts)
  end.

(** The symbols of a group, each once, in order of first contribution. *)
Fixpoint symbols (group : contributions) : list string :=
  match group with
  | [] => []
  | item :: rest =>
      fst item :: filter (fun elem => negb (String.eqb elem (fst item)))
                         (symbols rest)
  end.

(** What a closing group hands to its parent: its symbols, each with its
    coefficient. *)
Definition group_coefficients (group : contributions) : dict F :=
  map (fun elem => (elem, sum_of (received elem group))) (symbols group).

Definition close_contributions (stack : list contributions) (multiplier : F)
  : result (list contributions) :=
  match stack with
  | [] => Raise IndexError
  | group :: popped =>
      match group with
      | [] => Ok popped
      | _ :: _ =>
          match popped with
          | [] => Raise IndexError
          | top :: below =>
              Ok ((top ++ map (fun item : string * F =>
                                 (fst item, fmul (snd item) multiplier))
                              (group_coefficients group))%list :: below)
          end
      end
  end.

Definition contribute (stack : list contributions) (elem : string) (count : F)
  : result (list contributions) :=
  match stack with
  | [] => Raise IndexError
  | top :: below => Ok ((top ++ [(elem, count)])%list :: below)
  end.

Fixpoint contribution_loop (matches : list string) (stack : list contributions)
  : result (list contributions) :=
  match matches with
  | [] => Ok stack
  | token :: rest =>
      if String.eqb token "(" then
        contribution_loop rest ([] :: stack)
      else if String.eqb token ")" then
        multiplier <- number_or_one (hd_error rest) ;;
        stack' <- close_contributions stack multiplier ;;
        match rest with
        | [] => Ok stack'
        | _ :: rest' => contribution_loop rest' stack'
        end
      else if is_element token then
        match rest with
        | next :: rest' =>
            if is_number next then
              count <- float_of_token next ;;
              stack' <- contribute stack token count ;;
              contribution_loop rest' stack'
            else
              stack' <- contribute stack token fone ;;
              contribution_loop rest stack'
        | [] => contribute stack token fone
        end
      else
        contribution_loop rest stack
  end.

Definition root_contributions (matches : list string) : result contributions :=
  stack <- contribution_loop matches [[]] ;;
  match stack with
  | [] => Raise IndexError
  | top :: below => Ok (last below top)
  end.

Fixpoint spec_contribution_loop (tokens : list string)
  (stack : list contributions) : result (list contributions) :=
  match tokens with
  | [] => Ok stack
  | token :: rest =>
      if String.eqb token "(" then
        spec_contribution_loop rest ([] :: stack)
      else if String.eqb token ")" then
        match rest with
        | next :: rest' =>
            if is_number next then
              multiplier <- float_of_token next ;;
              stack' <- close_contributions stack multiplier ;;
              spec_contribution_loop rest' stack'
            else
              stack' <- close_contributions stack fone ;;
              spec_contribution_loop rest stack'
        | [] => close_contributions stack fone
        end
      else if is_element token then
        match rest with
        | next :: rest' =>
            if is_number next then
              count <- float_of_token next ;;
              stack' <- contribute stack token count ;;
              spec_contribution_loop rest' stack'
            else
              stack' <- contribute stack token fone ;;
              spec_contribution_loop rest stack'
        | [] => contribute stack token fone
        end
      else
        spec_contribution_loop rest stack
  end.

Definition spec_root_contributions (tokens : list string)
  : result contributions :=
  stack <- spec_contribution_loop tokens [[]] ;;
  match stack with
  | [] => Raise IndexError
  | top :: below => Ok (last below top)
  end.

(** Every close-bracket of [tokens] is followed by a number or by
    nothing. *)
Fixpoint multipliers_present (tokens : list string) : bool :=
  match tokens with
  | [] => true
  | token :: rest =>
      (if String.eqb token ")" then
         match rest with
         | [] => true
         | next :: _ => is_number next
         end
       else true)
      && multipliers_present rest
  end.

(** *** Auxiliary notions of the proofs *)

(** [float] succeeds on the tokens that reach it. *)
Definition float_safe (token : string) : Prop :=
  is_number token = true -> exists v : F, float_of_token token = Ok v.

(** What remains of the loop after one turn of its body. *)
Definition resume (matches : list string)
  (turn : result (nat * list (dict F))) : result (list (dict F)) :=
  match turn with
  | Ok (i', stack') => parse_loop (skipn i' matches) stack'
  | Raise e => Raise e
  end.

Definition or_zero (value : option F) : F :=
  match value with Some v => v | None => fzero end.

Definition accumulate (d : dict F) (group : contributions) : dict F :=
  fold_left (fun d (item : string * F) => dict_add d (fst item) (snd item))
            group d.

(** The dictionary the parser holds for a group that received these
    contributions. *)
Definition totals (group : contributions) : dict F := accumulate [] group.

Definition absent (l : list string) (elem : string) : bool :=
  if in_dec string_dec elem l then false else true.

(** The stack of dictionaries the parser holds, read off the stack of
    contribution lists. *)
Definition dictionaries (r : result (list contributions))
  : result (list (dict F)) :=
  stack <- r ;; Ok (map totals stack).

End Parser.

(** ** The parser on the store of Python objects

    The dictionaries of [parse_formula] as the objects they are.  The
    store holds the dictionary objects created so far, by this call and by
    whatever ran before it; an address is the position of an object in the
    store; [{}] creates a new object; [stack] holds addresses; and
    [stack[-1][elem] = ...] writes to the object at an address.  A call
    receives the store as it stands and hands on the store it leaves. *)
Section Store.

Context {F : Type} {PF : PyFloat F}.

Definition store : Type := list (dict F).

Definition address : Type := nat.

Definition load (h : store) (a : address) : dict F := nth a h [].

Fixpoint store_set (h : store) (a : address) (d : dict F) : store :=
  match h with
  | [] => []
  | object :: rest =>
      match a with
      | O => d :: rest
      | S a' => object :: store_set rest a' d
      end
  end.

(** [{}]: a new object, at the end of the store. *)
Definition new_dict (h : store) : address * store :=
  (List.length h, (h ++ [[]])%list).

(** [d[elem] = d.get(elem, 0) + amount] on the object at [a]. *)
Definition store_add (h : store) (a : address) (elem : string) (amount : F)
  : store :=
  store_set h a (dict_add (load h a) elem amount).

(** Lines 69-71: [stack.pop()], then one write to [stack[-1]] per item of
    the popped group, which is no longer on the stack. *)
Definition store_close (stack : list address) (multiplier : F) (h : store)
  : result (list address * store) :=
  match stack with
  | [] => Raise IndexError
  | group :: popped =>
      match load h group with
      | [] => Ok (popped, h)
      | items =>
          match popped with
          | [] => Raise IndexError
          | top :: _ =>
              Ok (popped,
                  fold_left (fun h' (item : string * F) =>
                               store_add h' top (fst item)
                                         (fmul (snd item) multiplier))
                            items h)
          end
      end
  end.

(** Line 81. *)
Definition store_element (stack : list address) (elem : string) (count : F)
  (h : store) : result (list address * store) :=
  match stack with
  | [] => Raise IndexError
  | top :: _ => Ok (stack, store_add h top elem count)
  end.

(** Lines 55-82, with the stack of addresses and the store. *)
Fixpoint store_loop (matches : list string) (stack : list address) (h : store)
  : result (list address * store) :=
  match matches with
  | [] => Ok (stack, h)
  | token :: rest =>
      if String.eqb token "(" then
        store_loop rest (fst (new_dict h) :: stack) (snd (new_dict h))
      else if String.eqb token ")" then
        multiplier <- number_or_one (hd_error rest) ;;
        closed <- store_close stack multiplier h ;;
        match rest with
        | [] => Ok closed
        | _ :: rest' => store_loop rest' (fst closed) (snd closed)
        end
      else if is_element token then
        match rest with
        | next :: rest' =>
            if is_number next then
              count <- float_of_token next ;;
              added <- store_element stack token count h ;;
              store_loop rest' (fst added) (snd added)
            else
              added <- store_element stack token fone h ;;
              store_loop rest (fst added) (snd added)
        | [] => store_element stack token fone h
        end
      else
        store_loop rest stack h
  end.

(** A call of [parse_formula] on the store [h]: [stack = [{}]] creates the
    root object, the loop runs, and [stack[0]] is returned, the address of
    an object of the store the call leaves. *)
Definition parse_call (formula : string) (h : store)
  : result (address * store) :=
  final <- store_loop (findall formula) [fst (new_dict h)] (snd (new_dict h)) ;;
  match fst final with
  | [] => Raise IndexError
  | top :: below => Ok (last below top, snd final)
  end.

(** The dictionaries a stack of addresses stands for. *)
Definition view (h : store) (stack : list address) : list (dict F) :=
  map (load h) stack.

(** The addresses of a stack are those of distinct objects of the store. *)
Definition stack_ok (h : store) (stack : list address) : Prop :=
  NoDup stack /\ Forall (fun a => a < List.length h) stack.

(** From the store [h] with the stack [stack] to the store [h'] with the
    stack [stack']: no object is lost, the objects of [h] that are not on
    [stack] are as they were, and [stack'] holds addresses of [stack] and
    of new objects. *)
Definition grown (h : store) (stack : list address)
  (h' : store) (stack' : list address) : Prop :=
  stack_ok h' stack'
  /\ List.length h <= List.length h'
  /\ (forall a, a < List.length h -> ~ In a stack -> load h' a = load h a)
  /\ (forall a, In a stack' -> In a stack \/ List.length h <= a).

End Store.

(** ** [get_atomic_weight] and the tables of [main] *)

(** A value of the [results] dictionary: the text [f"{required:.5f}"], or
    the marker put in place of a mass when the atomic weight is missing. *)
Inductive cell : Type :=
| Mass (text : string)
| Unavailable.

(** A value of the column of atomic weights in the table of the
    composition (lines 116-119): the weight, or the marker written when
    [get_atomic_weight(elem)] is [None] or zero. *)
Inductive weight_cell (F : Type) : Type :=
| Weight (atomic_weight : F)
| UnknownWeight.

Arguments Weight {F} atomic_weight.
Arguments UnknownWeight {F}.

(** What pressing "Calculate" ends in: one of the two [st.error] messages,
    an exception nobody catches, or the table of results. *)
Inductive outcome : Type :=
| InvalidMass                       (* the message asking for a valid number of grams *)
| NoAtomicWeight (elem : string)    (* the message that [elem] has no atomic weight *)
| Uncaught (e : exn)
| Table (results : dict cell).

(** What the "Enter" button reports (lines 102 and 105). *)
Inductive notice : Type :=
| ParseSucceeded
| ParseFailed (e : exn).

Section Calculator.

Context {F : Type} {PF : PyFloat F}.

(** What [periodictable.elements.symbol(element).mass] evaluates to for a
    symbol: the mass, or the exception the library raises.  The library is
    outside the repository and is a parameter; it is a function, since the
    program only reads the table. *)
Variable symbol_mass : string -> result F.

(** Lines 31-36: the [try] hands on the mass, the [except] turns an
    [AttributeError], and no other exception, into [None]. *)
Definition get_atomic_weight (element : string) : result (option F) :=
  match symbol_mass element with
  | Ok mass => Ok (Some mass)
  | Raise AttributeError => Ok None
  | Raise e => Raise e
  end.

(** The test [if atomic_weight:] of lines 117 and 152: neither [None] nor
    zero. *)
Definition usable (atomic_weight : option F) : option F :=
  match atomic_weight with
  | Some weight => if truthy weight then Some weight else None
  | None => None
  end.

(** *** The table of the composition (lines 110-123) *)

(** Line 117, for one element; the two calls of [get_atomic_weight] answer
    alike. *)
Definition weight_shown (elem : string) : result (weight_cell F) :=
  atomic_weight <- get_atomic_weight elem ;;
  Ok (match usable atomic_weight with
      | Some weight => Weight weight
      | None => UnknownWeight
      end).

(** Lines 116-119: the list comprehension, in the order of the keys; the
    first exception ends it. *)
Fixpoint weights_shown (elems : list string) : result (list (weight_cell F)) :=
  match elems with
  | [] => Ok []
  | elem :: rest =>
      shown <- weight_shown elem ;;
      others <- weights_shown rest ;;
      Ok (shown :: others)
  end.

(** Lines 112-123: one row per element of the composition, with its
    coefficient and its atomic weight. *)
Definition composition_table (composition : dict F)
  : result (dict (F * weight_cell F)) :=
  column <- weights_shown (keys composition) ;;
  Ok (combine (keys composition) (combine (map snd composition) column)).

(** *** The "Calculate" branch (lines 137-165) *)

(** Line 153. *)
Definition required (atomic_weight coeff factor : F) : F :=
  fmul (fmul atomic_weight coeff) factor.

(** Lines 151-156, one turn of the [for] loop, before formatting. *)
Definition required_of (factor : F) (elem : string) (coeff : F)
  : result (option F) :=
  atomic_weight <- get_atomic_weight elem ;;
  Ok (match usable atomic_weight with
      | Some weight => Some (required weight coeff factor)
      | None => None
      end).

Definition render (value : option F) : cell :=
  match value with
  | Some required => Mass (format_5f required)
  | None => Unavailable
  end.

(** Lines 150-156: the [for] loop over [composition.items()], with the
    [results] filled so far; an exception of a lookup ends it. *)
Fixpoint fill_loop (items : list (string * F)) (factor : F)
  (results : dict cell) : result (dict cell) :=
  match items with
  | [] => Ok results
  | item :: rest =>
      value <- required_of factor (fst item) (snd item) ;;
      fill_loop rest factor (dict_set results (fst item) (render value))
  end.

(** Lines 149-156. *)
Definition fill_results (composition : dict F) (factor : F)
  : result (dict cell) :=
  fill_loop composition factor [].

Definition calculate (composition : dict F) (selected_elem : string) (mass : F)
  : outcome :=
  if le_zero mass then InvalidMass
  else
    match get_atomic_weight selected_elem with
    | Raise e => Uncaught e
    | Ok None => NoAtomicWeight selected_elem
    | Ok (Some base_weight) =>
        match dict_get composition selected_elem with
        | None => Uncaught KeyError
        | Some coeff =>
            let base_mass := fmul base_weight coeff in
            match fdiv mass base_mass with
            | None => Uncaught ZeroDivisionError
            | Some factor =>
                match fill_results composition factor with
                | Raise e => Uncaught e
                | Ok results => Table results
                end
            end
        end
    end.

(** *** The buttons *)

(** Lines 97-105: the "Enter" button.  [session] is the entry
    ["composition"] of [st.session_state], absent before the first formula
    that parses; whatever [parse_formula] raises is caught and reported. *)
Definition press_enter (formula : string) (session : option (dict F))
  : option (dict F) * notice :=
  match parse_formula formula with
  | Ok composition => (Some composition, ParseSucceeded)
  | Raise e => (session, ParseFailed e)
  end.

(** Lines 110-165 after the buttons: nothing is shown or calculated
    before a composition is stored; the table of the stored composition is
    built first, and an exception of line 117 ends the script before the
    "Calculate" button is looked at; [selected_elem] is what the select box
    of line 128 returned. *)
Definition press_calculate (session : option (dict F))
  (selected_elem : string) (mass : F) : option outcome :=
  match session with
  | Some composition =>
      Some (match composition_table composition with
            | Raise e => Uncaught e
            | Ok _ => calculate composition selected_elem mass
            end)
  | None => None
  end.

(** *** Auxiliary notions of the proofs *)

(** The exception of the first lookup that raises one, over [elems] in
    order. *)
Fixpoint first_failure (elems : list string) : option exn :=
  match elems with
  | [] => None
  | elem :: rest =>
      match get_atomic_weight elem with
      | Raise e => Some e
      | Ok _ => first_failure rest
      end
  end.

(** What [get_atomic_weight] returns where it returns. *)
Definition weight_of (elem : string) : option F :=
  match get_atomic_weight elem with
  | Ok atomic_weight => atomic_weight
  | Raise _ => None
  end.

(** The rows of the two tables for a lookup that returned
    [atomic_weight]. *)
Definition shown_row (atomic_weight : option F) : weight_cell F :=
  match usable atomic_weight with
  | Some weight => Weight weight
  | None => UnknownWeight
  end.

Definition result_row (factor coeff : F) (atomic_weight : option F) : cell :=
  match usable atomic_weight with
  | Some weight => Mass (format_5f (required weight coeff factor))
  | None => Unavailable
  end.

End Calculator.
(** ** Decimal output *)

(** The integer nearest to [num / den], ties to even ([den > 0]). *)
Definition round_half_even (num den : Z) : Z :=
  let q := (num / den)%Z in
  match (2 * (num mod den) ?= den)%Z with
  | Lt => q
  | Gt => (q + 1)%Z
  | Eq => if Z.even q then q else (q + 1)%Z
  end.

Definition string_of_nat_Z (n : Z) : string :=
  NilZero.string_of_uint (N.to_uint (Z.to_N n)).

(** [n] hundred-thousandths, written with five decimals. *)
Definition fixed_5 (n : Z) : string :=
  string_of_nat_Z (n / 100000) ++ "." ++
  match string_of_nat_Z (100000 + n mod 100000) with
  | String _ decimals => decimals
  | "" => ""
  end.

Definition sign_text (negative : bool) : string := if negative then "-" else "".

(** ** Instance: IEEE binary64 *)

Definition spec_of_Z (m : Z) : spec_float :=
  match m with
  | Z0 => S754_zero false
  | Zpos p => S754_finite false p 0
  | Zneg p => S754_finite true p 0
  end.

(** [float] of a decimal literal is the binary64 number nearest to it. *)
Definition binary64_of_decimal (m : Z) (k : nat) : float :=
  SF2Prim (SFdiv prec emax (spec_of_Z m) (spec_of_Z (10 ^ Z.of_nat k))).

(** [f"{x:.5f}"]: the exact value of [x] rounded to five decimals, ties
    to even. *)
Definition binary64_format_5f (x : float) : string :=
  match Prim2SF x with
  | S754_nan => "nan"
  | S754_infinity s => sign_text s ++ "inf"
  | S754_zero s => sign_text s ++ "0.00000"
  | S754_finite s m e =>
      sign_text s ++
      fixed_5 (if (0 <=? e)%Z then (Zpos m * 2 ^ e * 100000)%Z
               else round_half_even (Zpos m * 100000) (2 ^ (- e)))
  end.

#[export] Instance Binary64 : PyFloat float := {
  fzero := PrimFloat.zero;
  fone := PrimFloat.one;
  fadd := PrimFloat.add;
  fmul := PrimFloat.mul;
  fdiv := fun x y => if PrimFloat.eqb y PrimFloat.zero then None
                     else Some (PrimFloat.div x y);
  le_zero := fun x => PrimFloat.leb x PrimFloat.zero;
  truthy := fun x => negb (PrimFloat.eqb x PrimFloat.zero);
  of_decimal := binary64_of_decimal;
  format_5f := binary64_format_5f
}.

(** ** The failures named by the specification

    The program declares no exception class.  The names of the
    specification are read onto what the code does: the invalid-mass message
    and the [KeyError] of [composition[selected_elem]] are its
    [InvalidCalculationInput], with the two reasons it tells apart; the
    missing-weight message is its [MissingAtomicWeight]. *)
Inductive reason : Type :=
| UnknownReference
| NonPositiveMass.

Inductive failure : Type :=
| InvalidCalculationInput (why : reason)
| MissingAtomicWeight (elem : string)
| Unhandled (e : exn).

Definition failure_of (o : outcome) : option failure :=
  match o with
  | InvalidMass => Some (InvalidCalculationInput NonPositiveMass)
  | NoAtomicWeight elem => Some (MissingAtomicWeight elem)
  | Uncaught KeyError => Some (InvalidCalculationInput UnknownReference)
  | Uncaught e => Some (Unhandled e)
  | Table _ => None
  end.

(** ** Sample data: lookups with four atomic weights *)

#[warnings="-inexact-float"]
Definition hydrogen_weight : float := 1.008%float.

#[warnings="-inexact-float"]
Definition oxygen_weight : float := 15.999%float.

#[warnings="-inexact-float"]
Definition sodium_weight : float := 22.98976928%float.

#[warnings="-inexact-float"]
Definition chlorine_weight : float := 35.45%float.

(** Four rows of a periodic table, with the exception raised for every
    other symbol. *)
Definition four_rows (missing : exn) (elem : string) : result float :=
  if String.eqb elem "H" then Ok hydrogen_weight
  else if String.eqb elem "O" then Ok oxygen_weight
  else if String.eqb elem "Na" then Ok sodium_weight
  else if String.eqb elem "Cl" then Ok chlorine_weight
  else Raise missing.

(** A lookup that raises [ValueError] for a symbol it does not have, which
    is what [periodictable.elements.symbol] does. *)
Definition sample_table : string -> result float := four_rows ValueError.

(** A lookup that raises [AttributeError] for a symbol it does not have,
    the exception [get_atomic_weight] is written for. *)
Definition attribute_table : string -> result float :=
  four_rows AttributeError.

Definition water : dict float := [("H", 2%float); ("O", 1%float)].

Definition salt : dict float := [("Na", 1%float); ("Cl", 1%float)].

(** ** Notions for the tokens *)

(** The whole of [t] is an element symbol: one uppercase letter, then at
    most one lowercase letter. *)
Definition is_symbol (t : string) : bool :=
  match t with
  | String c "" => is_upper c
  | String c (String c2 "") => is_upper c && is_lower c2
  | _ => false
  end.

(** The whole of [t] is a decimal literal: digits, or digits (possibly
    none), a dot and at least one digit. *)
Definition is_literal (t : string) : bool :=
  match after_digits t with
  | "" => nonempty (digits_of t)
  | String c rest =>
      is_dot c && nonempty rest
      && match after_digits rest with "" => true | _ => false end
  end.

(** A character no alternative of the pattern can take. *)
Definition is_stray (c : ascii) : bool :=
  negb (is_upper c || is_lower c || is_digit c || is_dot c
        || Ascii.eqb c "("%char || Ascii.eqb c ")"%char).

Definition join (tokens : list string) : string :=
  fold_right String.append "" tokens.

(** [t] is [s] with some characters left out. *)
Inductive subsequence : string -> string -> Prop :=
| subsequence_nil : subsequence "" ""
| subsequence_keep : forall c t s,
    subsequence t s -> subsequence (String c t) (String c s)
| subsequence_drop : forall c t s,
    subsequence t s -> subsequence t (String c s).

Fixpoint string_drop (k : nat) (s : string) : string :=
  match k, s with
  | S k', String _ rest => string_drop k' rest
  | _, _ => s
  end.

(** ** Notions for the parser *)

(** No token of the list is a bracket. *)
Definition flat (tokens : list string) : bool :=
  forallb (fun t => negb (String.eqb t "(") && negb (String.eqb t ")")) tokens.

(** The strings of [l], each once, in order of first occurrence. *)
Fixpoint distinct (l : list string) : list string :=
  match l with
  | [] => []
  | x :: rest => x :: filter (fun y => negb (String.eqb y x)) (distinct rest)
  end.

(** * Properties *)

(** ** The tokens of [re.findall] *)

Lemma digits_of_all_digits : forall s, digits_of (digits_of s) = digits_of s.
Proof.
  induction s as [|c s IH]; simpl; [reflexivity|].
  destruct (is_digit c) eqn:Hc; simpl; [rewrite Hc, IH|]; reflexivity.
Qed.

Lemma after_digits_of_digits : forall s, after_digits (digits_of s) = "".
Proof.
  induction s as [|c s IH]; simpl; [reflexivity|].
  destruct (is_digit c) eqn:Hc; simpl; [rewrite Hc|]; auto.
Qed.

Lemma after_digits_app : forall s c t,
  is_digit c = false -> after_digits (digits_of s ++ String c t) = String c t.
Proof.
  induction s as [|d s IH]; intros c t Hc; simpl.
  - now rewrite Hc.
  - destruct (is_digit d) eqn:Hd; simpl.
    + now rewrite Hd, IH.
    + now rewrite Hc.
Qed.

Lemma dot_not_digit : forall c, is_dot c = true -> is_digit c = false.
Proof.
  intros c H. apply Ascii.eqb_eq in H. subst c. reflexivity.
Qed.

Lemma upper_not_digit : forall c, is_upper c = true -> is_digit c = false.
Proof.
  unfold is_upper, is_digit. intros c H.
  apply andb_true_iff in H as [H1 H2].
  apply Nat.leb_le in H1. apply andb_false_iff. right.
  apply Nat.leb_gt. lia.
Qed.

Lemma upper_not_dot : forall c, is_upper c = true -> is_dot c = false.
Proof.
  intros c H. unfold is_dot. destruct (Ascii.eqb c ".") eqn:E; [|reflexivity].
  apply Ascii.eqb_eq in E. subst c. discriminate H.
Qed.

(** A text matched by the element pattern does not start a number. *)
Lemma element_not_number : forall s t,
  match_element s = Some t -> is_number t = false.
Proof.
  intros s t H. destruct s as [|c rest]; [discriminate|]. simpl in H.
  destruct (is_upper c) eqn:Hc; [|discriminate].
  assert (Hd := upper_not_digit c Hc). assert (Hp := upper_not_dot c Hc).
  assert (forall x, is_number (String c x) = false) as Hn.
  { intro x. unfold is_number, match_number. simpl. rewrite Hd. simpl.
    now rewrite Hp. }
  destruct rest as [|c2 rest]; [|destruct (is_lower c2)];
    injection H as <-; apply Hn.
Qed.

Section TokenFacts.

Context {F : Type} {PF : PyFloat F}.

(** A text matched by the number pattern is a literal [float] accepts. *)
Lemma number_is_literal : forall s t,
  match_number s = Some t -> exists v : F, float_of_token t = Ok v.
Proof.
  intros s t H. unfold match_number in H.
  assert (Hback : (if nonempty (digits_of s) then Some (digits_of s) else None)
                  = Some t -> exists v : F, float_of_token t = Ok v).
  { destruct (nonempty (digits_of s)) eqn:Hne; [|discriminate].
    intros [= <-]. unfold float_of_token.
    rewrite after_digits_of_digits, digits_of_all_digits, Hne. eauto. }
  destruct (after_digits s) as [|c rest] eqn:Hafter; [auto|].
  destruct (is_dot c) eqn:Hdot; [|auto].
  destruct (nonempty (digits_of rest)) eqn:Hfrac; [|auto].
  injection H as <-. unfold float_of_token.
  rewrite (after_digits_app s c _ (dot_not_digit c Hdot)), Hdot.
  rewrite after_digits_of_digits, digits_of_all_digits, Hfrac.
  rewrite orb_true_r. eauto.
Qed.

Lemma match_token_safe : forall s t, match_token s = Some t -> float_safe t.
Proof.
  intros s t H Hnum. unfold match_token in H.
  destruct (match_element s) as [e|] eqn:He.
  - injection H as <-. rewrite (element_not_number _ _ He) in Hnum. discriminate.
  - destruct (match_number s) as [n|] eqn:Hn.
    + injection H as <-. eapply number_is_literal; eauto.
    + destruct s as [|c rest]; [discriminate|].
      destruct (Ascii.eqb c "("); [injection H as <-; discriminate Hnum|].
      destruct (Ascii.eqb c ")"); [injection H as <-; discriminate Hnum|].
      discriminate.
Qed.

Lemma findall_from_safe : forall s skip,
  Forall float_safe (findall_from skip s).
Proof.
  induction s as [|c rest IH]; intro skip; simpl; [constructor|].
  destruct skip as [|k]; [|apply IH].
  destruct (match_token (String c rest)) as [t|] eqn:Ht; [|apply IH].
  constructor; [eapply match_token_safe; eauto | apply IH].
Qed.

Lemma findall_safe : forall formula, Forall float_safe (findall formula).
Proof. intro formula. apply findall_from_safe. Qed.

End TokenFacts.

(** ** Failures of the parser *)

(** Induction for functions that consume one or two tokens per turn. *)
Lemma tokens_ind (P : list string -> Prop) :
  (forall l, (forall l', List.length l' < List.length l -> P l') -> P l) ->
  forall l, P l.
Proof.
  intros step l.
  assert (forall n l', List.length l' < n -> P l') as H.
  { induction n as [|n IH]; intros l' Hl; [lia|].
    apply step. intros l'' Hl''. apply IH. lia. }
  apply step. intros l' _. apply (H (S (List.length l'))). lia.
Qed.

Section ParserFacts.

Context {F : Type} {PF : PyFloat F}.

Lemma number_or_one_safe : forall rest,
  Forall (float_safe (F:=F)) rest ->
  exists m : F, number_or_one (hd_error rest) = Ok m.
Proof.
  intros [|next rest] H; simpl; [eauto|].
  destruct (is_number next) eqn:Hn; [|eauto].
  inversion H; subst. auto.
Qed.

Lemma close_group_raise : forall (stack : list (dict F)) m e,
  close_group stack m = Raise e -> e = IndexError.
Proof.
  intros [|[|item group] [|top below]] m e H; simpl in H; congruence.
Qed.

Lemma add_element_raise : forall (stack : list (dict F)) elem count e,
  add_element stack elem count = Raise e -> e = IndexError.
Proof.
  intros [|top below] elem count e H; simpl in H; congruence.
Qed.

(** On the tokens of [re.findall], the loop raises nothing but
    [IndexError]. *)
Lemma parse_loop_raise : forall matches (stack : list (dict F)) e,
  Forall (float_safe (F:=F)) matches ->
  parse_loop matches stack = Raise e -> e = IndexError.
Proof.
  induction matches as [matches IH] using tokens_ind.
  intros stack e Hsafe H. destruct matches as [|token rest]; [discriminate|].
  inversion Hsafe as [|? ? Htoken Hrest]; subst. simpl in H.
  destruct (String.eqb token "(").
  { eapply (IH rest); [simpl; lia | |]; eauto. }
  destruct (String.eqb token ")").
  { destruct (number_or_one_safe rest Hrest) as [m Hm].
    rewrite Hm in H. simpl in H.
    destruct (close_group stack m) as [stack'|e'] eqn:Hclose; simpl in H.
    - destruct rest as [|next rest']; [discriminate|].
      inversion Hrest; subst. eapply (IH rest'); [simpl; lia | |]; eauto.
    - injection H as <-. eapply close_group_raise; eauto. }
  destruct (is_element token).
  { destruct rest as [|next rest'].
    - eapply add_element_raise; eauto.
    - inversion Hrest as [|? ? Hnext Hrest']; subst.
      destruct (is_number next) eqn:Hn.
      + destruct (Hnext Hn) as [v Hv]. rewrite Hv in H. simpl in H.
        destruct (add_element stack token v) as [stack'|e'] eqn:Hadd; simpl in H.
        * eapply (IH rest'); [simpl; lia | |]; eauto.
        * injection H as <-. eapply add_element_raise; eauto.
      + destruct (add_element stack token fone) as [stack'|e'] eqn:Hadd; simpl in H.
        * eapply (IH (next :: rest')); [simpl; lia | |]; eauto.
        * injection H as <-. eapply add_element_raise; eauto. }
  eapply (IH rest); [simpl; lia | |]; eauto.
Qed.

(** Without a close-bracket token the stack never shrinks, and the loop
    runs to its end. *)
Lemma parse_loop_no_close : forall matches (stack : list (dict F)),
  Forall (float_safe (F:=F)) matches ->
  ~ In ")" matches ->
  stack <> [] ->
  exists stack', parse_loop matches stack = Ok stack' /\ stack' <> [].
Proof.
  induction matches as [matches IH] using tokens_ind.
  intros stack Hsafe Hno Hstack. destruct matches as [|token rest].
  { simpl. eauto. }
  inversion Hsafe as [|? ? Htoken Hrest]; subst. simpl.
  assert (Hno' : ~ In ")" rest) by (intro; apply Hno; now right).
  destruct (String.eqb token "(").
  { apply IH; auto; try discriminate; simpl; lia. }
  destruct (String.eqb_spec token ")") as [->|_].
  { exfalso. apply Hno. now left. }
  destruct (is_element token); [|apply IH; auto; simpl; lia].
  destruct stack as [|top below]; [contradiction|].
  destruct rest as [|next rest'].
  { simpl. eexists. split; [reflexivity|discriminate]. }
  inversion Hrest as [|? ? Hnext Hrest']; subst.
  destruct (is_number next) eqn:Hn.
  - destruct (Hnext Hn) as [v Hv]. rewrite Hv. cbn [add_element bind].
    apply IH; auto; try discriminate; [simpl; lia|].
    intro Hin. apply Hno'. now right.
  - cbn [add_element bind]. apply IH; auto; try discriminate; simpl; lia.
Qed.

Lemma stack_root_ok : forall stack : list (dict F),
  stack <> [] -> exists root, stack_root stack = Ok root.
Proof.
  intros [|top below] H; [contradiction|]. simpl. eauto.
Qed.

Lemma dict_set_nonempty : forall (V : Type) (d : dict V) key value,
  dict_set d key value <> [].
Proof.
  intros V [|[k v] rest] key value; simpl; [discriminate|].
  destruct (String.eqb k key); discriminate.
Qed.

Lemma dict_add_nonempty : forall (d : dict F) elem amount,
  dict_add d elem amount <> [].
Proof. intros. apply dict_set_nonempty. Qed.

Lemma parse_loop_cons : forall token rest (stack : list (dict F)),
  parse_loop (token :: rest) stack =
  if String.eqb token "(" then parse_loop rest ([] :: stack)
  else if String.eqb token ")" then
    multiplier <- number_or_one (hd_error rest) ;;
    stack' <- close_group stack multiplier ;;
    match rest with
    | [] => Ok stack'
    | _ :: rest' => parse_loop rest' stack'
    end
  else if is_element token then
    match rest with
    | next :: rest' =>
        if is_number next then
          count <- float_of_token next ;;
          stack' <- add_element stack token count ;;
          parse_loop rest' stack'
        else
          stack' <- add_element stack token fone ;;
          parse_loop rest stack'
    | [] => add_element stack token fone
    end
  else parse_loop rest stack.
Proof. reflexivity. Qed.

Lemma close_group_length : forall (stack : list (dict F)) multiplier n,
  List.length stack = S (S n) ->
  exists stack',
    close_group stack multiplier = Ok stack' /\ List.length stack' = S n.
Proof.
  intros [|group [|top below]] multiplier n H; try discriminate.
  simpl in H. destruct group; simpl; eexists; split; try reflexivity;
    simpl; lia.
Qed.

Lemma number_is_no_bracket : forall next n rest,
  is_number next = true ->
  brackets_ok n (next :: rest) = brackets_ok n rest.
Proof.
  intros next n rest H. simpl.
  destruct (String.eqb_spec next "(") as [->|_]; [discriminate|].
  destruct (String.eqb_spec next ")") as [->|_]; [discriminate|].
  reflexivity.
Qed.

(** With every close-bracket matched and followed by its multiplier, the
    stack keeps its root and the loop runs to its end. *)
Lemma parse_loop_brackets_ok : forall matches (stack : list (dict F)) n,
  Forall (float_safe (F:=F)) matches ->
  List.length stack = S n ->
  brackets_ok n matches = true ->
  exists stack', parse_loop matches stack = Ok stack' /\ stack' <> [].
Proof.
  induction matches as [matches IH] using tokens_ind.
  intros stack n Hsafe Hlen Hok. destruct matches as [|token rest].
  { simpl. exists stack. split; [reflexivity|]. destruct stack; discriminate. }
  inversion Hsafe as [|? ? Htoken Hrest]; subst.
  rewrite parse_loop_cons. simpl in Hok.
  destruct (String.eqb token "(").
  { apply (IH rest) with (n := S n); auto. simpl. lia. }
  destruct (String.eqb token ")").
  { destruct n as [|m]; [discriminate|].
    apply andb_true_iff in Hok as [Hnext Hok].
    destruct rest as [|next rest'].
    - cbn [hd_error number_or_one bind].
      destruct (close_group_length stack fone m Hlen) as [stack' [-> Hlen']].
      cbn [bind]. exists stack'. split; [reflexivity|].
      destruct stack'; discriminate.
    - inversion Hrest as [|? ? Hsafe_next Hrest']; subst.
      cbn [hd_error number_or_one]. rewrite Hnext.
      destruct (Hsafe_next Hnext) as [v ->]. cbn [bind].
      destruct (close_group_length stack v m Hlen) as [stack' [-> Hlen']].
      cbn [bind]. rewrite (number_is_no_bracket next m rest' Hnext) in Hok.
      apply (IH rest') with (n := m); auto. simpl. lia. }
  destruct stack as [|top below]; [discriminate|].
  destruct (is_element token); [|apply (IH rest) with (n := n); auto].
  destruct rest as [|next rest'].
  { cbn [add_element]. eexists. split; [reflexivity|discriminate]. }
  inversion Hrest as [|? ? Hsafe_next Hrest']; subst.
  destruct (is_number next) eqn:Hnext.
  - destruct (Hsafe_next Hnext) as [v ->]. cbn [bind add_element].
    rewrite (number_is_no_bracket next n rest' Hnext) in Hok.
    apply (IH rest') with (n := n); auto. simpl. lia.
  - cbn [bind add_element]. apply (IH (next :: rest')) with (n := n); auto.
Qed.

(** A stretch of tokens without brackets only adds to the top group and
    leaves the loop in front of the bracket that follows. *)
Lemma parse_loop_flat_prefix : forall pre rest (top : dict F) below,
  Forall (float_safe (F:=F)) pre ->
  (forall t, In t pre -> t <> "(" /\ t <> ")") ->
  exists top',
    parse_loop (pre ++ ")" :: rest)%list (top :: below)
    = parse_loop (")" :: rest) (top' :: below)
    /\ (top <> [] \/ (exists t, In t pre /\ is_element t = true) -> top' <> []).
Proof.
  induction pre as [pre IH] using tokens_ind.
  intros rest top below Hsafe Hflat. destruct pre as [|token pre'].
  { exists top. split; [reflexivity|]. intros [H|[t [[] _]]]. exact H. }
  inversion Hsafe as [|? ? Htoken Hpre']; subst.
  assert (Hflat' : forall t, In t pre' -> t <> "(" /\ t <> ")")
    by (intros t Ht; apply Hflat; now right).
  destruct (Hflat token (or_introl eq_refl)) as [Hopen Hclose].
  apply String.eqb_neq in Hopen, Hclose.
  change ((token :: pre') ++ ")" :: rest)%list
    with (token :: (pre' ++ ")" :: rest))%list.
  rewrite parse_loop_cons, Hopen, Hclose.
  destruct (is_element token) eqn:Helem.
  - (* an element symbol: the top group is not empty afterwards *)
    destruct pre' as [|next pre''].
    + exists (dict_add top token fone). split; [reflexivity|].
      intros _. apply dict_add_nonempty.
    + inversion Hpre' as [|? ? Hnext Hpre'']; subst.
      change ((next :: pre'') ++ ")" :: rest)%list
        with (next :: (pre'' ++ ")" :: rest))%list.
      cbv beta iota.
      destruct (is_number next) eqn:Hn.
      * destruct (Hnext Hn) as [v Hv]. rewrite Hv. cbn [bind add_element].
        destruct (IH pre'') with (rest := rest) (top := dict_add top token v)
          (below := below) as [top' [Heq Hne]]; auto.
        { simpl. lia. }
        { intros t Ht. apply Hflat'. now right. }
        exists top'. split; [exact Heq|]. intros _.
        apply Hne. left. apply dict_add_nonempty.
      * cbn [bind add_element].
        destruct (IH (next :: pre'')) with (rest := rest)
          (top := dict_add top token fone) (below := below)
          as [top' [Heq Hne]]; auto.
        exists top'. split; [exact Heq|]. intros _.
        apply Hne. left. apply dict_add_nonempty.
  - (* a stray number: passed over *)
    destruct (IH pre') with (rest := rest) (top := top) (below := below)
      as [top' [Heq Hne]]; auto.
    exists top'. split; [exact Heq|]. intros [H|[t [[<-|Ht] He]]].
    + apply Hne. now left.
    + congruence.
    + apply Hne. right. eauto.
Qed.

(** A close-bracket met with only the root on the stack, the root holding
    something: [stack[-1]] is asked of an empty list. *)
Lemma parse_loop_close_root : forall rest (top : dict F),
  Forall (float_safe (F:=F)) rest ->
  top <> [] ->
  parse_loop (")" :: rest) [top] = Raise IndexError.
Proof.
  intros rest top Hsafe Htop. rewrite parse_loop_cons. simpl.
  destruct (number_or_one_safe rest Hsafe) as [m ->]. simpl.
  destruct top; [contradiction|reflexivity].
Qed.

End ParserFacts.

(** ** The loop with its index and the loop over the remaining tokens *)

Lemma skipn_succ_tl : forall (A : Type) (n : nat) (l : list A),
  skipn (S n) l = tl (skipn n l).
Proof.
  induction n as [|n IH]; intros [|a l]; try reflexivity.
  rewrite skipn_cons. rewrite IH. reflexivity.
Qed.

Lemma skipn_at : forall (A : Type) (i : nat) (l : list A) (x : A),
  nth_error l i = Some x -> skipn i l = x :: skipn (S i) l.
Proof.
  intros A i l x H. rewrite skipn_succ_tl.
  rewrite <- hd_error_skipn in H.
  destruct (skipn i l); simpl in *; congruence.
Qed.

Section LoopFacts.

Context {F : Type} {PF : PyFloat F}.

Variable matches : list string.

Lemma after_next : forall i (stack' : list (dict F)),
  match skipn (i + 1) matches with
  | [] => Ok stack'
  | _ :: rest' => parse_loop rest' stack'
  end = parse_loop (skipn (i + 1 + 1) matches) stack'.
Proof.
  intros i stack'. replace (i + 1 + 1) with (S (i + 1)) by lia.
  rewrite skipn_succ_tl. destruct (skipn (i + 1) matches); reflexivity.
Qed.

Lemma loop_body_resume : forall i (stack : list (dict F)),
  i < List.length matches ->
  parse_loop (skipn i matches) stack = resume matches (loop_body matches i stack).
Proof.
  intros i stack Hi.
  destruct (nth_error matches i) as [token|] eqn:Htoken;
    [|apply nth_error_None in Htoken; lia].
  rewrite (skipn_at _ _ _ _ Htoken), parse_loop_cons.
  unfold loop_body. rewrite Htoken.
  replace (S i) with (i + 1) by lia.
  destruct (String.eqb token "("); [reflexivity|].
  destruct (String.eqb token ")").
  { rewrite hd_error_skipn.
    destruct (number_or_one (nth_error matches (i + 1))) as [m|e];
      [|reflexivity].
    cbn [bind]. destruct (close_group stack m) as [stack'|e]; [|reflexivity].
    cbn [bind resume]. apply after_next. }
  destruct (is_element token); [|reflexivity].
  destruct (nth_error matches (i + 1)) as [next|] eqn:Hnext.
  - rewrite (skipn_at _ _ _ _ Hnext).
    destruct (is_number next).
    + destruct (float_of_token next) as [count|e]; [|reflexivity].
      cbn [bind]. destruct (add_element stack token count); [|reflexivity].
      cbn [bind resume]. replace (i + 1 + 1) with (S (i + 1)) by lia.
      reflexivity.
    + destruct (add_element stack token fone); [|reflexivity].
      cbn [bind resume]. rewrite (skipn_at _ _ _ _ Hnext). reflexivity.
  - apply nth_error_None in Hnext. rewrite (skipn_all2 _ Hnext).
    destruct (add_element stack token fone); [|reflexivity].
    cbn [bind resume]. rewrite (skipn_all2 _ Hnext). reflexivity.
Qed.

Lemma loop_body_advances : forall i (stack : list (dict F)) i' stack',
  loop_body matches i stack = Ok (i', stack') -> i < i'.
Proof.
  intros i stack i' stack' H. unfold loop_body in H.
  destruct (nth_error matches i) as [token|]; [|discriminate].
  destruct (String.eqb token "("); [injection H as <- _; lia|].
  destruct (String.eqb token ")").
  { destruct (number_or_one (nth_error matches (i + 1))); [|discriminate].
    cbn [bind] in H. destruct (close_group stack value); [|discriminate].
    injection H as <- _. lia. }
  destruct (is_element token); [|injection H as <- _; lia].
  destruct (nth_error matches (i + 1)) as [next|].
  - destruct (is_number next).
    + destruct (float_of_token next); [|discriminate]. cbn [bind] in H.
      destruct (add_element stack token value); [|discriminate].
      injection H as <- _. lia.
    + destruct (add_element stack token fone); [|discriminate].
      injection H as <- _. lia.
  - destruct (add_element stack token fone); [|discriminate].
    injection H as <- _. lia.
Qed.

(** The relation is a function: what the loop ends in is decided by the
    state at its head. *)
Lemma while_loop_parse_loop : forall i (stack : list (dict F)) r,
  while_loop matches i stack r -> r = parse_loop (skipn i matches) stack.
Proof.
  intros i stack r H. induction H as [i stack Hi|i stack i' stack' r Hi Hbody _ IH|i stack e Hi Hbody].
  - rewrite (skipn_all2 _ Hi). reflexivity.
  - rewrite (loop_body_resume i stack Hi), Hbody. exact IH.
  - rewrite (loop_body_resume i stack Hi), Hbody. reflexivity.
Qed.

(** The loop terminates: every state at its head is related to an end. *)
Lemma parse_loop_while_loop : forall i (stack : list (dict F)),
  while_loop matches i stack (parse_loop (skipn i matches) stack).
Proof.
  assert (forall n i (stack : list (dict F)),
             List.length matches - i <= n ->
             while_loop matches i stack (parse_loop (skipn i matches) stack))
    as H.
  { induction n as [|n IH]; intros i stack Hn.
    - rewrite skipn_all2 by lia. apply while_exit. lia.
    - destruct (Nat.le_gt_cases (List.length matches) i) as [Hi|Hi].
      + rewrite skipn_all2 by lia. apply while_exit. lia.
      + rewrite (loop_body_resume i stack Hi).
        destruct (loop_body matches i stack) as [[i' stack']|e] eqn:Hbody.
        * eapply while_iter; eauto. apply IH.
          apply loop_body_advances in Hbody. lia.
        * apply while_raise; auto. }
  intros i stack. apply (H (List.length matches)). lia.
Qed.

End LoopFacts.

Section Determinism.

Context {F : Type} {PF : PyFloat F}.

Lemma parses_parse_formula : forall formula (r : result (dict F)),
  parses formula r -> r = parse_formula formula.
Proof.
  intros formula r [final H]. apply while_loop_parse_loop in H.
  subst final. reflexivity.
Qed.

Lemma parse_formula_parses : forall formula,
  parses (F:=F) formula (parse_formula formula).
Proof.
  intro formula. unfold parse_formula, parse_tokens.
  apply parses_call. apply (parse_loop_while_loop (findall formula) 0).
Qed.

End Determinism.

(** ** Compositions have distinct keys *)

Lemma dict_set_keys : forall (V : Type) (d : dict V) key value,
  keys (dict_set d key value)
  = if in_dec string_dec key (keys d) then keys d else (keys d ++ [key])%list.
Proof.
  induction d as [|[k v] rest IH]; intros key value; simpl; [reflexivity|].
  destruct (String.eqb_spec k key) as [->|Hk]; simpl.
  - destruct (string_dec key key); [reflexivity|contradiction].
  - rewrite IH. destruct (string_dec k key); [contradiction|].
    destruct (in_dec string_dec key (keys rest)); reflexivity.
Qed.

Lemma dict_set_wf : forall (V : Type) (d : dict V) key value,
  dict_wf d -> dict_wf (dict_set d key value).
Proof.
  unfold dict_wf. intros V d key value H. rewrite dict_set_keys.
  destruct (in_dec string_dec key (keys d)) as [Hin|Hout]; [exact H|].
  apply NoDup_app; [exact H | repeat constructor; intros [] |].
  intros a Ha [<-|[]]. exact (Hout Ha).
Qed.

(** ** Coefficients are sums of contributions *)

Lemma dict_get_set : forall (V : Type) (d : dict V) key value key',
  dict_get (dict_set d key value) key'
  = if String.eqb key key' then Some value else dict_get d key'.
Proof.
  induction d as [|[k v] rest IH]; intros key value key'; simpl.
  - reflexivity.
  - destruct (String.eqb_spec k key) as [->|Hk]; simpl.
    + destruct (String.eqb key key'); reflexivity.
    + rewrite IH. destruct (String.eqb_spec k key') as [->|Hk'].
      * apply String.eqb_neq in Hk. rewrite String.eqb_sym, Hk. reflexivity.
      * reflexivity.
Qed.

Section ContributionFacts.

Context {F : Type} {PF : PyFloat F}.

Lemma dict_get_add : forall (d : dict F) elem amount key,
  dict_get (dict_add d elem amount) key
  = if String.eqb elem key then Some (fadd (or_zero (dict_get d elem)) amount)
    else dict_get d key.
Proof. intros. unfold dict_add. apply dict_get_set. Qed.

Lemma received_cons : forall elem k (v : F) (group : contributions),
  received elem ((k, v) :: group)
  = if String.eqb k elem then v :: received elem group
    else received elem group.
Proof.
  intros. unfold received. simpl. destruct (String.eqb k elem); reflexivity.
Qed.

Lemma dict_get_accumulate : forall group (d : dict F) elem,
  dict_get (accumulate d group) elem
  = match received elem group with
    | [] => dict_get d elem
    | amounts => Some (fold_left fadd amounts (or_zero (dict_get d elem)))
    end.
Proof.
  induction group as [|[k v] group IH]; intros d elem; [reflexivity|].
  change (accumulate d ((k, v) :: group))
    with (accumulate (dict_add d k v) group).
  rewrite IH, dict_get_add, received_cons.
  destruct (String.eqb_spec k elem) as [->|Hk]; simpl.
  - destruct (received elem group); reflexivity.
  - reflexivity.
Qed.

(** The coefficient kept in the dictionary is the sum of what the symbol
    received. *)
Lemma coefficient_totals : forall (group : contributions) elem,
  dict_get (totals group) elem = coefficient elem group.
Proof.
  intros group elem. apply (dict_get_accumulate group [] elem).
Qed.

Lemma accumulate_nonempty : forall group (d : dict F),
  d <> [] -> accumulate d group <> [].
Proof.
  induction group as [|[k v] group IH]; intros d Hd; [exact Hd|].
  apply IH. apply dict_add_nonempty.
Qed.

Lemma totals_nonempty : forall item (group : contributions),
  totals (item :: group) <> [].
Proof.
  intros item group.
  change (totals (item :: group))
    with (accumulate (dict_add [] (fst item) (snd item)) group).
  apply accumulate_nonempty. apply dict_add_nonempty.
Qed.

Lemma totals_snoc : forall (group : contributions) elem count,
  totals (group ++ [(elem, count)])%list = dict_add (totals group) elem count.
Proof.
  intros. unfold totals, accumulate. rewrite fold_left_app. reflexivity.
Qed.

Lemma merge_totals : forall (sub : dict F) (top : contributions) multiplier,
  merge_group (totals top) sub multiplier
  = totals (top ++ map (fun item : string * F =>
                          (fst item, fmul (snd item) multiplier)) sub)%list.
Proof.
  intros sub top multiplier. unfold totals, accumulate, merge_group.
  rewrite fold_left_app. generalize (fold_left
    (fun d (item : string * F) => dict_add d (fst item) (snd item)) top []).
  induction sub as [|[k v] sub IH]; intro d; simpl; [reflexivity|apply IH].
Qed.

Lemma last_totals : forall (below : list contributions) top,
  last (map totals below) (totals top) = totals (last below top).
Proof.
  induction below as [|g below IH]; intro top; [reflexivity|].
  destruct below as [|g' below']; [reflexivity|].
  change (last (map totals (g' :: below')) (totals top)
          = totals (last (g' :: below') top)).
  apply IH.
Qed.

Lemma accumulate_wf : forall group (d : dict F),
  dict_wf d -> dict_wf (accumulate d group).
Proof.
  induction group as [|[k v] group IH]; intros d Hd; [exact Hd|].
  apply IH. apply dict_set_wf. exact Hd.
Qed.

Lemma totals_wf : forall group : contributions, dict_wf (totals group).
Proof. intro group. apply accumulate_wf. constructor. Qed.

(** *** The dictionary of a group lists its symbols in order of first
    contribution *)

Lemma absent_app : forall l k elem,
  absent (l ++ [k])%list elem = negb (String.eqb elem k) && absent l elem.
Proof.
  intros l k elem. unfold absent.
  destruct (in_dec string_dec elem (l ++ [k])%list) as [Hin|Hout];
    destruct (in_dec string_dec elem l) as [Hl|Hl];
    destruct (String.eqb_spec elem k) as [->|Hk]; simpl; try reflexivity.
  - apply in_app_or in Hin as [Hin|[Hin|[]]]; [contradiction|congruence].
  - exfalso. apply Hout. apply in_or_app. now left.
  - exfalso. apply Hout. apply in_or_app. now left.
  - exfalso. apply Hout. apply in_or_app. right. now left.
Qed.

Lemma filter_filter : forall (A : Type) (p q : A -> bool) (l : list A),
  filter p (filter q l) = filter (fun x => q x && p x) l.
Proof.
  induction l as [|x l IH]; simpl; [reflexivity|].
  destruct (q x); simpl; [destruct (p x)|]; rewrite ?IH; reflexivity.
Qed.

Lemma absent_iff : forall l elem, absent l elem = true <-> ~ In elem l.
Proof.
  intros l elem. unfold absent.
  destruct (in_dec string_dec elem l); split; auto; discriminate.
Qed.

Lemma keys_accumulate : forall group (d : dict F),
  keys (accumulate d group)
  = (keys d ++ filter (absent (keys d)) (symbols group))%list.
Proof.
  induction group as [|[k v] group IH]; intro d.
  - simpl. now rewrite app_nil_r.
  - change (accumulate d ((k, v) :: group))
      with (accumulate (dict_add d k v) group).
    rewrite IH. unfold dict_add. rewrite dict_set_keys.
    cbn [symbols fst filter]. rewrite filter_filter.
    destruct (in_dec string_dec k (keys d)) as [Hin|Hout].
    + destruct (absent (keys d) k) eqn:Hk.
      { apply absent_iff in Hk. contradiction. }
      f_equal. apply filter_ext_in. intros elem _.
      destruct (String.eqb_spec elem k) as [->|Hneq]; simpl; [|reflexivity].
      exact Hk.
    + apply absent_iff in Hout. rewrite Hout.
      rewrite <- app_assoc. simpl. do 2 f_equal.
      apply filter_ext. intro elem. apply absent_app.
Qed.

Lemma keys_totals : forall group : contributions,
  keys (totals group) = symbols group.
Proof.
  intro group. unfold totals. rewrite keys_accumulate. simpl.
  rewrite <- (filter_ext (fun _ => true)) by reflexivity.
  induction (symbols group) as [|x l IH]; simpl; congruence.
Qed.

Lemma symbols_received : forall (group : contributions (F:=F)) elem,
  In elem (symbols group) <-> received elem group <> [].
Proof.
  induction group as [|[k v] group IH]; intro elem.
  - simpl. split; [intros []|intro H; now apply H].
  - rewrite received_cons. cbn [symbols fst].
    destruct (String.eqb_spec k elem) as [->|Hk].
    + split; [discriminate|intros _; now left].
    + rewrite <- IH. split.
      * intros [H|H]; [contradiction|]. apply filter_In in H. tauto.
      * intro H. right. apply filter_In. split; [exact H|].
        apply negb_true_iff. apply String.eqb_neq. congruence.
Qed.

Lemma dict_get_tabulate : forall (f : string -> F) (l : list string) elem,
  dict_get (map (fun e => (e, f e)) l) elem
  = if in_dec string_dec elem l then Some (f elem) else None.
Proof.
  induction l as [|x l IH]; intro elem; simpl; [reflexivity|].
  destruct (String.eqb_spec x elem) as [->|Hx].
  - destruct (string_dec elem elem); [reflexivity|contradiction].
  - rewrite IH. destruct (string_dec x elem); [contradiction|].
    destruct (in_dec string_dec elem l); reflexivity.
Qed.

Lemma coefficient_group_coefficients : forall (group : contributions) elem,
  dict_get (group_coefficients group) elem = coefficient elem group.
Proof.
  intros group elem. unfold group_coefficients, coefficient.
  rewrite (dict_get_tabulate (fun e => sum_of (received e group))).
  destruct (in_dec string_dec elem (symbols group)) as [Hin|Hout].
  - apply symbols_received in Hin.
    destruct (received elem group); [contradiction|reflexivity].
  - destruct (received elem group) eqn:E; [reflexivity|].
    exfalso. apply Hout. apply symbols_received. rewrite E. discriminate.
Qed.

(** A dictionary is its keys, in order, with the value of each. *)
Lemma dict_ext : forall (V : Type) (d1 d2 : dict V),
  dict_wf d1 ->
  keys d1 = keys d2 ->
  (forall key, dict_get d1 key = dict_get d2 key) ->
  d1 = d2.
Proof.
  induction d1 as [|[k1 v1] d1 IH]; intros [|[k2 v2] d2] Hwf Hkeys Hget;
    try discriminate; [reflexivity|].
  injection Hkeys as <- Hkeys. inversion Hwf as [|? ? Hk1 Hwf1]; subst.
  assert (v1 = v2) as <-.
  { specialize (Hget k1). simpl in Hget. rewrite String.eqb_refl in Hget.
    congruence. }
  f_equal. apply IH; [exact Hwf1|exact Hkeys|].
  intro key. specialize (Hget key). simpl in Hget.
  destruct (String.eqb_spec k1 key) as [E|Hk]; [subst key|exact Hget].
  (* [k1] is in neither tail *)
  assert (forall (d : dict V), ~ In k1 (keys d) -> dict_get d k1 = None) as Hnone.
  { induction d as [|[k v] d IHd]; intro Hout; simpl; [reflexivity|].
    destruct (String.eqb_spec k k1) as [->|_].
    - exfalso. apply Hout. now left.
    - apply IHd. intro Hin. apply Hout. now right. }
  rewrite (Hnone d1 Hk1). rewrite Hnone; [reflexivity|].
  rewrite <- Hkeys. exact Hk1.
Qed.

(** The dictionary the parser holds for a group is the list of the
    group's symbols with their coefficients. *)
Lemma totals_group_coefficients : forall group : contributions,
  totals group = group_coefficients group.
Proof.
  intro group. apply dict_ext.
  - apply totals_wf.
  - rewrite keys_totals. unfold group_coefficients, keys.
    rewrite map_map. simpl. symmetry. apply map_id.
  - intro key. rewrite coefficient_totals, coefficient_group_coefficients.
    reflexivity.
Qed.

Lemma close_refines : forall (stack : list contributions) multiplier,
  close_group (map totals stack) multiplier
  = dictionaries (close_contributions stack multiplier).
Proof.
  intros [|group popped] multiplier; [reflexivity|].
  destruct group as [|item group]; [reflexivity|].
  cbn [map close_group close_contributions].
  destruct (totals (item :: group)) as [|x d] eqn:Hd.
  { exfalso. exact (totals_nonempty _ _ Hd). }
  destruct popped as [|top below]; [reflexivity|].
  cbn [map dictionaries bind]. rewrite <- Hd, merge_totals.
  rewrite (totals_group_coefficients (item :: group)). reflexivity.
Qed.

Lemma contribute_refines : forall (stack : list contributions) elem count,
  add_element (map totals stack) elem count
  = dictionaries (contribute stack elem count).
Proof.
  intros [|top below] elem count; [reflexivity|].
  cbn [map add_element contribute dictionaries bind].
  rewrite totals_snoc. reflexivity.
Qed.

(** The parser's stack is, at every turn of the loop, the stack of
    contribution lists with each list summed up. *)
Lemma contribution_loop_refines : forall matches (stack : list contributions),
  parse_loop matches (map totals stack)
  = dictionaries (contribution_loop matches stack).
Proof.
  induction matches as [matches IH] using tokens_ind.
  intros stack. destruct matches as [|token rest]; [reflexivity|].
  rewrite parse_loop_cons. cbn [contribution_loop].
  destruct (String.eqb token "(").
  { apply (IH rest) with (stack := [] :: stack). simpl. lia. }
  destruct (String.eqb token ")").
  { destruct (number_or_one (hd_error rest)) as [m|e]; [|reflexivity].
    cbn [bind]. rewrite close_refines.
    destruct (close_contributions stack m) as [stack'|e]; [|reflexivity].
    cbn [bind dictionaries].
    destruct rest as [|next rest']; [reflexivity|].
    apply IH. simpl. lia. }
  destruct (is_element token); [|apply IH; simpl; lia].
  destruct rest as [|next rest']; [apply contribute_refines|].
  destruct (is_number next).
  - destruct (float_of_token next) as [count|e]; [|reflexivity].
    cbn [bind]. rewrite contribute_refines.
    destruct (contribute stack token count) as [stack'|e]; [|reflexivity].
    cbn [bind dictionaries]. apply IH. simpl. lia.
  - rewrite contribute_refines.
    destruct (contribute stack token fone) as [stack'|e]; [|reflexivity].
    cbn [bind dictionaries]. apply IH. simpl. lia.
Qed.

(** Where every close-bracket has its multiplier, the loop of the code
    reads the tokens as the specification does. *)
Lemma contribution_loop_spec : forall tokens (stack : list contributions),
  multipliers_present tokens = true ->
  spec_contribution_loop tokens stack = contribution_loop tokens stack.
Proof.
  induction tokens as [tokens IH] using tokens_ind.
  intros stack Hm. destruct tokens as [|token rest]; [reflexivity|].
  cbn [multipliers_present] in Hm. apply andb_true_iff in Hm as [Hnext Hrest].
  cbn [spec_contribution_loop contribution_loop].
  destruct (String.eqb token "("); [apply IH; [simpl; lia|exact Hrest]|].
  destruct (String.eqb token ")").
  { destruct rest as [|next rest'].
    - cbn [hd_error number_or_one bind].
      destruct (close_contributions stack fone); reflexivity.
    - cbn [hd_error number_or_one]. rewrite Hnext.
      destruct (float_of_token next) as [m|e]; [|reflexivity]. cbn [bind].
      destruct (close_contributions stack m) as [stack'|e]; [|reflexivity].
      cbn [bind]. apply IH; [simpl; lia|].
      cbn [multipliers_present] in Hrest.
      apply andb_true_iff in Hrest. tauto. }
  destruct (is_element token); [|apply IH; [simpl; lia|exact Hrest]].
  destruct rest as [|next rest']; [reflexivity|].
  destruct (is_number next).
  - destruct (float_of_token next) as [count|e]; [|reflexivity]. cbn [bind].
    destruct (contribute stack token count) as [stack'|e]; [|reflexivity].
    cbn [bind]. apply IH; [simpl; lia|].
    cbn [multipliers_present] in Hrest. apply andb_true_iff in Hrest. tauto.
  - destruct (contribute stack token fone) as [stack'|e]; [|reflexivity].
    cbn [bind]. apply IH; [simpl; lia|exact Hrest].
Qed.

Lemma parse_tokens_contributions : forall matches (composition : dict F),
  parse_tokens matches = Ok composition ->
  exists group,
    root_contributions matches = Ok group /\ composition = totals group.
Proof.
  intros matches composition H. unfold parse_tokens in H.
  change [[]] with (map totals [[]]) in H.
  rewrite contribution_loop_refines in H. unfold root_contributions.
  destruct (contribution_loop matches [[]]) as [stack|e]; [|discriminate].
  cbn [dictionaries bind] in *.
  destruct stack as [|top below]; [discriminate|].
  cbn [map stack_root] in H. rewrite last_totals in H.
  injection H as <-. eauto.
Qed.

Lemma parse_formula_wf : forall formula (composition : dict F),
  parse_formula formula = Ok composition -> dict_wf composition.
Proof.
  intros formula composition H.
  apply parse_tokens_contributions in H as [group [_ ->]]. apply totals_wf.
Qed.

End ContributionFacts.

(** ** The parser on the store and the parser on values *)

Section StoreFacts.

Context {F : Type} {PF : PyFloat F}.

Local Open Scope list_scope.

Lemma load_old : forall (h more : store (F:=F)) a,
  a < List.length h -> load (h ++ more) a = load h a.
Proof. intros h more a H. unfold load. apply app_nth1. exact H. Qed.

Lemma load_new : forall (h : store (F:=F)) d,
  load (h ++ [d]) (List.length h) = d.
Proof.
  intros h d. unfold load. rewrite app_nth2 by lia.
  rewrite Nat.sub_diag. reflexivity.
Qed.

Lemma store_set_length : forall (h : store (F:=F)) a d,
  List.length (store_set h a d) = List.length h.
Proof.
  induction h as [|object h IH]; intros [|a] d; simpl; auto.
Qed.

Lemma load_set_same : forall (h : store (F:=F)) a d,
  a < List.length h -> load (store_set h a d) a = d.
Proof.
  unfold load. induction h as [|object h IH]; intros [|a] d H; simpl in *;
    try lia; [reflexivity|]. apply IH. lia.
Qed.

Lemma load_set_other : forall (h : store (F:=F)) a b d,
  a <> b -> load (store_set h a d) b = load h b.
Proof.
  unfold load. induction h as [|object h IH]; intros [|a] [|b] d H; simpl;
    try reflexivity; try congruence.
  apply IH. congruence.
Qed.

Lemma view_set_other : forall (h : store (F:=F)) a d stack,
  ~ In a stack -> view (store_set h a d) stack = view h stack.
Proof.
  intros h a d stack H. unfold view. apply map_ext_in. intros b Hb.
  apply load_set_other. intros ->. contradiction.
Qed.

Lemma view_old : forall (h more : store (F:=F)) stack,
  Forall (fun a => a < List.length h) stack ->
  view (h ++ more) stack = view h stack.
Proof.
  intros h more stack H. unfold view. apply map_ext_in. intros a Ha.
  apply load_old. rewrite Forall_forall in H. auto.
Qed.

Lemma grown_refl : forall (h : store (F:=F)) stack,
  stack_ok h stack -> grown h stack h stack.
Proof. intros h stack H. repeat split; auto; apply H. Qed.

Lemma grown_trans : forall (h h1 h2 : store (F:=F)) stack stack1 stack2,
  grown h stack h1 stack1 -> grown h1 stack1 h2 stack2 ->
  grown h stack h2 stack2.
Proof.
  intros h h1 h2 stack stack1 stack2
         (_ & Hlen1 & Hframe1 & Hfrom1) (Hok2 & Hlen2 & Hframe2 & Hfrom2).
  split; [exact Hok2|]. split; [lia|]. split.
  - intros a Ha Hout. rewrite Hframe2; [apply Hframe1; assumption|lia|].
    intro Hin. destruct (Hfrom1 a Hin); [contradiction|lia].
  - intros a Hin. destruct (Hfrom2 a Hin) as [Hin1|Hnew]; [|right; lia].
    destruct (Hfrom1 a Hin1); auto.
Qed.

(** One write to an object of the stack. *)
Lemma grown_set : forall (h : store (F:=F)) stack a d,
  stack_ok h stack -> In a stack -> grown h stack (store_set h a d) stack.
Proof.
  intros h stack a d [Hnodup Hvalid] Hin. split; [split|].
  - exact Hnodup.
  - rewrite store_set_length. exact Hvalid.
  - split; [rewrite store_set_length; lia|]. split.
    + intros b _ Hout. apply load_set_other. intros ->. contradiction.
    + auto.
Qed.

(** [stack.append({})] *)
Lemma push_agrees : forall (h : store (F:=F)) stack,
  stack_ok h stack ->
  view (snd (new_dict h)) (fst (new_dict h) :: stack) = [] :: view h stack
  /\ grown h stack (snd (new_dict h)) (fst (new_dict h) :: stack).
Proof.
  intros h stack [Hnodup Hvalid]. unfold new_dict. cbn [fst snd].
  assert (Hfresh : ~ In (List.length h) stack).
  { intro Hin. rewrite Forall_forall in Hvalid.
    specialize (Hvalid _ Hin). lia. }
  split.
  - cbn [view map]. rewrite load_new. f_equal. apply view_old. exact Hvalid.
  - split; [split|].
    + constructor; assumption.
    + rewrite length_app. cbn [List.length]. constructor; [lia|].
      eapply Forall_impl; [|exact Hvalid]. cbv beta. intros. lia.
    + split; [rewrite length_app; lia|]. split.
      * intros a Ha _. apply load_old. exact Ha.
      * intros a [<-|Hin]; [right; lia|left; exact Hin].
Qed.

(** The writes of lines 70-71 to the object at [top]. *)
Lemma merge_agrees : forall items (h : store (F:=F)) top multiplier,
  top < List.length h ->
  fold_left (fun h' (item : string * F) =>
               store_add h' top (fst item) (fmul (snd item) multiplier))
            items h
  = match items with
    | [] => h
    | _ :: _ => store_set h top (merge_group (load h top) items multiplier)
    end.
Proof.
  induction items as [|item items IH]; intros h top multiplier Htop;
    [reflexivity|].
  cbn [fold_left]. rewrite IH by (unfold store_add; rewrite store_set_length;
                                  exact Htop).
  unfold merge_group. cbn [fold_left]. unfold store_add at 2.
  destruct items as [|item' items]; [reflexivity|].
  unfold store_add at 1.
  rewrite load_set_same by exact Htop.
  generalize (fold_left
                (fun acc (item0 : string * F) =>
                   dict_add acc (fst item0) (fmul (snd item0) multiplier))
                (item' :: items)
                (dict_add (load h top) (fst item) (fmul (snd item) multiplier))).
  intro d. clear. revert top.
  induction h as [|object h IH]; intros [|top]; simpl; try reflexivity.
  f_equal. apply IH.
Qed.

(** Lines 69-71 *)
Lemma close_agrees : forall (h : store (F:=F)) stack multiplier,
  stack_ok h stack ->
  match store_close stack multiplier h with
  | Raise e => close_group (view h stack) multiplier = Raise e
  | Ok closed =>
      close_group (view h stack) multiplier
      = Ok (view (snd closed) (fst closed))
      /\ grown h stack (snd closed) (fst closed)
  end.
Proof.
  intros h [|group popped] multiplier [Hnodup Hvalid]; [reflexivity|].
  inversion Hnodup as [|? ? Hout Hnodup']; subst.
  inversion Hvalid as [|? ? Hgroup Hvalid']; subst.
  assert (Hpopped : grown h (group :: popped) h popped).
  { split; [split; assumption|]. split; [lia|]. split; [auto|].
    intros a Hin. left. right. exact Hin. }
  unfold store_close. cbn [view map close_group].
  destruct (load h group) as [|item items] eqn:Hitems.
  { cbn [fst snd]. split; [reflexivity|exact Hpopped]. }
  destruct popped as [|top below]; [reflexivity|].
  inversion Hnodup' as [|? ? Hout' Hnodup'']; subst.
  inversion Hvalid' as [|? ? Htop Hvalid'']; subst.
  rewrite merge_agrees by exact Htop. cbn [fst snd map]. split.
  - unfold view. cbn [map]. rewrite load_set_same by exact Htop.
    do 2 f_equal. symmetry. exact (view_set_other h top _ below Hout').
  - eapply grown_trans; [exact Hpopped|].
    apply grown_set; [split; assumption|now left].
Qed.

(** Line 81 *)
Lemma element_agrees : forall (h : store (F:=F)) stack elem count,
  stack_ok h stack ->
  match store_element stack elem count h with
  | Raise e => add_element (view h stack) elem count = Raise e
  | Ok added =>
      add_element (view h stack) elem count
      = Ok (view (snd added) (fst added))
      /\ grown h stack (snd added) (fst added)
  end.
Proof.
  intros h [|top below] elem count Hok; [reflexivity|].
  destruct Hok as [Hnodup Hvalid].
  inversion Hnodup as [|? ? Hout _]; subst.
  inversion Hvalid as [|? ? Htop _]; subst.
  unfold store_element, store_add. cbn [fst snd view map add_element]. split.
  - unfold view. cbn [map]. rewrite load_set_same by exact Htop.
    do 2 f_equal. symmetry. exact (view_set_other h top _ below Hout).
  - apply grown_set; [split; assumption|now left].
Qed.

Lemma store_loop_cons : forall token rest stack (h : store (F:=F)),
  store_loop (token :: rest) stack h =
  if String.eqb token "(" then
    store_loop rest (fst (new_dict h) :: stack) (snd (new_dict h))
  else if String.eqb token ")" then
    multiplier <- number_or_one (hd_error rest) ;;
    closed <- store_close stack multiplier h ;;
    match rest with
    | [] => Ok closed
    | _ :: rest' => store_loop rest' (fst closed) (snd closed)
    end
  else if is_element token then
    match rest with
    | next :: rest' =>
        if is_number next then
          count <- float_of_token next ;;
          added <- store_element stack token count h ;;
          store_loop rest' (fst added) (snd added)
        else
          added <- store_element stack token fone h ;;
          store_loop rest (fst added) (snd added)
    | [] => store_element stack token fone h
    end
  else store_loop rest stack h.
Proof. reflexivity. Qed.

(** What the loop on the store does after a step that agrees with the
    step on values. *)
Lemma store_loop_resumes :
  forall tokens (h h1 : store (F:=F)) stack stack1 before,
  (forall stack' (h' : store (F:=F)),
     stack_ok h' stack' ->
     match store_loop tokens stack' h' with
     | Raise e => parse_loop tokens (view h' stack') = Raise e
     | Ok final =>
         parse_loop tokens (view h' stack')
         = Ok (view (snd final) (fst final))
         /\ grown h' stack' (snd final) (fst final)
     end) ->
  before = view h1 stack1 ->
  grown h stack h1 stack1 ->
  match store_loop tokens stack1 h1 with
  | Raise e => parse_loop tokens before = Raise e
  | Ok final =>
      parse_loop tokens before = Ok (view (snd final) (fst final))
      /\ grown h stack (snd final) (fst final)
  end.
Proof.
  intros tokens h h1 stack stack1 before IH -> Hgrown.
  specialize (IH stack1 h1 (proj1 Hgrown)).
  destruct (store_loop tokens stack1 h1) as [final|e]; [|exact IH].
  destruct IH as [Hpure Hmore]. split; [exact Hpure|].
  eapply grown_trans; eassumption.
Qed.

(** The loop on the store computes what the loop on values computes, on
    new objects and on the objects of its stack only. *)
Lemma store_loop_agrees : forall matches stack (h : store (F:=F)),
  stack_ok h stack ->
  match store_loop matches stack h with
  | Raise e => parse_loop matches (view h stack) = Raise e
  | Ok final =>
      parse_loop matches (view h stack) = Ok (view (snd final) (fst final))
      /\ grown h stack (snd final) (fst final)
  end.
Proof.
  induction matches as [matches IH] using tokens_ind. intros stack h Hok.
  destruct matches as [|token rest].
  { split; [reflexivity|apply grown_refl; exact Hok]. }
  rewrite store_loop_cons, parse_loop_cons.
  destruct (String.eqb token "(").
  { destruct (push_agrees h stack Hok) as [Hview Hgrown].
    apply store_loop_resumes with (h := h) (stack := stack);
      [apply IH; simpl; lia|symmetry; exact Hview|exact Hgrown]. }
  destruct (String.eqb token ")").
  { destruct (number_or_one (hd_error rest)) as [multiplier|e];
      [|reflexivity].
    cbn [bind]. pose proof (close_agrees h stack multiplier Hok) as Hclose.
    destruct (store_close stack multiplier h) as [closed|e];
      [|rewrite Hclose; reflexivity].
    destruct Hclose as [-> Hgrown]. cbn [bind].
    destruct rest as [|next rest']; [split; [reflexivity|exact Hgrown]|].
    apply store_loop_resumes with (h := h) (stack := stack);
      [apply IH; simpl; lia|reflexivity|exact Hgrown]. }
  destruct (is_element token).
  - destruct rest as [|next rest'].
    { apply element_agrees. exact Hok. }
    destruct (is_number next).
    + destruct (float_of_token next) as [count|e]; [|reflexivity].
      cbn [bind]. pose proof (element_agrees h stack token count Hok) as Hadd.
      destruct (store_element stack token count h) as [added|e];
        [|rewrite Hadd; reflexivity].
      destruct Hadd as [-> Hgrown]. cbn [bind].
      apply store_loop_resumes with (h := h) (stack := stack);
        [apply IH; simpl; lia|reflexivity|exact Hgrown].
    + pose proof (element_agrees h stack token fone Hok) as Hadd.
      destruct (store_element stack token fone h) as [added|e];
        [|rewrite Hadd; reflexivity].
      destruct Hadd as [-> Hgrown]. cbn [bind].
      apply store_loop_resumes with (h := h) (stack := stack);
        [apply IH; simpl; lia|reflexivity|exact Hgrown].
  - apply store_loop_resumes with (h := h) (stack := stack);
      [apply IH; simpl; lia|reflexivity|apply grown_refl; exact Hok].
Qed.

Lemma view_last : forall (h : store (F:=F)) below top,
  last (view h below) (load h top) = load h (last below top).
Proof.
  intros h below. induction below as [|a below IH]; intro top;
    [reflexivity|].
  cbn [view map]. destruct below as [|b below]; [reflexivity|].
  exact (IH top).
Qed.

(** A call on the store: it fails as [parse_formula] fails, and otherwise
    returns a new object that holds what [parse_formula] returns, in a
    store whose earlier objects are as they were. *)
Lemma parse_call_agrees : forall formula (h : store (F:=F)),
  match parse_call formula h with
  | Raise e => parse_formula (F:=F) formula = Raise e
  | Ok (root, h') =>
      parse_formula formula = Ok (load h' root)
      /\ List.length h <= root < List.length h'
      /\ forall a, a < List.length h -> load h' a = load h a
  end.
Proof.
  intros formula h. unfold parse_call, parse_formula, parse_tokens.
  destruct (push_agrees h [] (conj (NoDup_nil _) (Forall_nil _)))
    as [Hview Hpush].
  pose proof (store_loop_agrees (findall formula)
                [fst (new_dict h)] (snd (new_dict h)) (proj1 Hpush)) as Hloop.
  rewrite Hview in Hloop. change (view h []) with (@nil (dict F)) in Hloop.
  destruct (store_loop (findall formula) [fst (new_dict h)] (snd (new_dict h)))
    as [[stack h']|e]; [|rewrite Hloop; reflexivity].
  destruct Hloop as [-> Hgrown]. cbn [bind fst snd].
  destruct stack as [|top below]; [reflexivity|].
  cbn [view map stack_root].
  pose proof (grown_trans _ _ _ _ _ _ Hpush Hgrown)
    as ((Hnodup & Hvalid) & Hlen & Hframe & Hfrom).
  split; [f_equal; apply (view_last h' below top)|]. split.
  - assert (Hin : In (last below top) (top :: below)).
    { clear. destruct below as [|a below]; [now left|]. right.
      assert (Hne : a :: below <> []) by discriminate.
      rewrite (app_removelast_last top Hne) at 2.
      apply in_or_app. right. now left. }
    rewrite Forall_forall in Hvalid. split; [|apply Hvalid; exact Hin].
    destruct (Hfrom _ Hin) as [[]|Hnew]. exact Hnew.
  - intros a Ha. apply Hframe; [exact Ha|]. intros [].
Qed.

End StoreFacts.
(** ** The tables of [main] *)

Lemma dict_set_fresh : forall (V : Type) (d : dict V) key value,
  ~ In key (keys d) -> dict_set d key value = (d ++ [(key, value)])%list.
Proof.
  induction d as [|[k v] rest IH]; intros key value Hfresh; simpl.
  - reflexivity.
  - destruct (String.eqb_spec k key) as [->|Hk].
    + exfalso. apply Hfresh. now left.
    + rewrite IH; [reflexivity|]. intro Hin. apply Hfresh. now right.
Qed.

Lemma dict_get_rows : forall (V W : Type) (row : string -> V -> W) (d : dict V) key,
  dict_get (map (fun item => (fst item, row (fst item) (snd item))) d) key
  = option_map (row key) (dict_get d key).
Proof.
  induction d as [|[k v] rest IH]; intro key; simpl; [reflexivity|].
  destruct (String.eqb_spec k key) as [->|Hk]; [reflexivity|apply IH].
Qed.

Lemma keys_rows : forall (V W : Type) (row : string -> V -> W) (d : dict V),
  keys (map (fun item => (fst item, row (fst item) (snd item))) d) = keys d.
Proof.
  intros. unfold keys. rewrite map_map. reflexivity.
Qed.

Lemma fold_dict_set_rows :
  forall (V W : Type) (row : string -> V -> W) (d : dict V) (acc : dict W),
  NoDup (keys d) ->
  (forall key, In key (keys d) -> ~ In key (keys acc)) ->
  fold_left (fun results item => dict_set results (fst item)
                                          (row (fst item) (snd item))) d acc
  = (acc ++ map (fun item => (fst item, row (fst item) (snd item))) d)%list.
Proof.
  induction d as [|[k v] rest IH]; intros acc Hnodup Hfresh; simpl.
  - now rewrite app_nil_r.
  - inversion Hnodup as [|? ? Hk Hrest]; subst.
    rewrite dict_set_fresh by (apply Hfresh; now left).
    rewrite IH; auto.
    + rewrite <- app_assoc. reflexivity.
    + intros key Hin Hacc. unfold keys in Hacc.
      rewrite map_app in Hacc. apply in_app_or in Hacc as [Hacc|[<-|[]]].
      * apply (Hfresh key); [now right|exact Hacc].
      * exact (Hk Hin).
Qed.

Lemma dict_get_absent : forall (V : Type) (d : dict V) key,
  ~ In key (keys d) -> dict_get d key = None.
Proof.
  induction d as [|[k v] d IH]; intros key H; [reflexivity|]. simpl.
  destruct (String.eqb_spec k key) as [->|_].
  - exfalso. apply H. now left.
  - apply IH. intro Hin. apply H. now right.
Qed.

Lemma dict_get_present : forall (V : Type) (d : dict V) key,
  In key (keys d) -> exists v, dict_get d key = Some v.
Proof.
  induction d as [|[k v] d IH]; intros key H; [destruct H|]. simpl.
  destruct (String.eqb_spec k key) as [->|Hneq]; [eauto|].
  apply IH. destruct H as [H|H]; [contradiction|exact H].
Qed.

Lemma dict_get_keys : forall (V : Type) (d : dict V) key v,
  dict_get d key = Some v -> In key (keys d).
Proof.
  induction d as [|[k w] d IH]; intros key v H; [discriminate|].
  simpl in H. destruct (String.eqb_spec k key) as [->|_]; [now left|].
  right. eapply IH. exact H.
Qed.

Section CalculatorFacts.

Context {F : Type} {PF : PyFloat F}.

Variable symbol_mass : string -> result F.

(** The lookups of [elems] all return exactly when none fails first. *)
Lemma first_failure_none : forall elems,
  first_failure symbol_mass elems = None
  <-> forall elem, In elem elems ->
        exists atomic_weight, get_atomic_weight symbol_mass elem = Ok atomic_weight.
Proof.
  induction elems as [|elem rest IH]; cbn [first_failure].
  - split; [intros _ ? []|reflexivity].
  - destruct (get_atomic_weight symbol_mass elem) as [w|e] eqn:Hw; split.
    + intros Hrest x [<-|Hin]; [eauto|]. apply IH; assumption.
    + intros Hall. apply IH. intros x Hin. apply Hall. now right.
    + discriminate.
    + intros Hall. destruct (Hall elem (or_introl eq_refl)) as [w Hw'].
      congruence.
Qed.

(** The exception that ends a run over [elems] is raised by the lookup of
    one of them. *)
Lemma first_failure_some : forall elems e,
  first_failure symbol_mass elems = Some e ->
  exists elem, In elem elems /\ get_atomic_weight symbol_mass elem = Raise e.
Proof.
  induction elems as [|elem rest IH]; intros e H; cbn [first_failure] in H;
    [discriminate|].
  destruct (get_atomic_weight symbol_mass elem) as [w|e'] eqn:Hw.
  - destruct (IH e H) as [x [Hin Hx]]. exists x. split; [now right|exact Hx].
  - injection H as <-. exists elem. split; [now left|exact Hw].
Qed.

Lemma weight_of_returned : forall elem atomic_weight,
  get_atomic_weight symbol_mass elem = Ok atomic_weight ->
  weight_of symbol_mass elem = atomic_weight.
Proof. intros elem w H. unfold weight_of. rewrite H. reflexivity. Qed.

(** Line 117 and the loop of lines 150-156 look up the same elements in
    the same order: both end in the first failure, if there is one. *)
Lemma weights_shown_result : forall elems,
  weights_shown symbol_mass elems
  = match first_failure symbol_mass elems with
    | Some e => Raise e
    | None =>
        Ok (map (fun elem => shown_row (weight_of symbol_mass elem)) elems)
    end.
Proof.
  induction elems as [|elem rest IH]; [reflexivity|].
  cbn [weights_shown first_failure map]. unfold weight_shown, weight_of.
  destruct (get_atomic_weight symbol_mass elem) as [w|e]; [|reflexivity].
  cbn [bind]. rewrite IH.
  destruct (first_failure symbol_mass rest); reflexivity.
Qed.

Lemma fill_loop_result : forall items factor results,
  fill_loop symbol_mass items factor results
  = match first_failure symbol_mass (map fst items) with
    | Some e => Raise e
    | None =>
        Ok (fold_left
              (fun filled (item : string * F) =>
                 dict_set filled (fst item)
                   (result_row factor (snd item)
                               (weight_of symbol_mass (fst item))))
              items results)
    end.
Proof.
  induction items as [|item rest IH]; intros factor results; [reflexivity|].
  cbn [fill_loop first_failure map fold_left]. unfold required_of, weight_of.
  destruct (get_atomic_weight symbol_mass (fst item)) as [w|e]; [|reflexivity].
  cbn [bind]. rewrite IH. unfold result_row, render.
  destruct (usable w); reflexivity.
Qed.

(** One row per element of the composition, in its order. *)
Lemma fill_results_rows : forall (composition : dict F) factor,
  dict_wf composition ->
  fill_results symbol_mass composition factor
  = match first_failure symbol_mass (keys composition) with
    | Some e => Raise e
    | None =>
        Ok (map (fun item : string * F =>
                   (fst item,
                    result_row factor (snd item)
                               (weight_of symbol_mass (fst item))))
                composition)
    end.
Proof.
  intros composition factor Hwf. unfold fill_results.
  rewrite fill_loop_result. fold (keys composition).
  destruct (first_failure symbol_mass (keys composition)); [reflexivity|].
  rewrite (fold_dict_set_rows F cell
             (fun elem coeff =>
                result_row factor coeff (weight_of symbol_mass elem)))
    by (auto; intros key _ []).
  reflexivity.
Qed.

Lemma composition_table_rows : forall composition : dict F,
  composition_table symbol_mass composition
  = match first_failure symbol_mass (keys composition) with
    | Some e => Raise e
    | None =>
        Ok (map (fun item : string * F =>
                   (fst item,
                    (snd item, shown_row (weight_of symbol_mass (fst item)))))
                composition)
    end.
Proof.
  intro composition. unfold composition_table. rewrite weights_shown_result.
  destruct (first_failure symbol_mass (keys composition)); [reflexivity|].
  cbn [bind]. f_equal. unfold keys.
  induction composition as [|[elem coeff] rest IH]; [reflexivity|].
  cbn [map combine fst snd]. f_equal. exact IH.
Qed.

(** The path through lines 138-146 that reaches the [for] loop. *)
Lemma calculate_loop :
  forall (composition : dict F) selected_elem mass base_weight coeff factor,
  le_zero mass = false ->
  get_atomic_weight symbol_mass selected_elem = Ok (Some base_weight) ->
  dict_get composition selected_elem = Some coeff ->
  fdiv mass (fmul base_weight coeff) = Some factor ->
  calculate symbol_mass composition selected_elem mass
  = match fill_results symbol_mass composition factor with
    | Raise e => Uncaught e
    | Ok results => Table results
    end.
Proof.
  intros composition selected_elem mass base_weight coeff factor Hmass Hw Hc Hf.
  unfold calculate. rewrite Hmass, Hw, Hc. cbv zeta. rewrite Hf. reflexivity.
Qed.

(** What a calculation that returned its table went through. *)
Lemma calculate_table_inv :
  forall (composition : dict F) selected_elem mass results,
  calculate symbol_mass composition selected_elem mass = Table results ->
  exists base_weight coeff factor,
    le_zero mass = false
    /\ get_atomic_weight symbol_mass selected_elem = Ok (Some base_weight)
    /\ dict_get composition selected_elem = Some coeff
    /\ fdiv mass (fmul base_weight coeff) = Some factor
    /\ fill_results symbol_mass composition factor = Ok results.
Proof.
  intros composition selected_elem mass results H. unfold calculate in H.
  destruct (le_zero mass); [discriminate|].
  destruct (get_atomic_weight symbol_mass selected_elem) as [[base_weight|]|];
    try discriminate.
  destruct (dict_get composition selected_elem) as [coeff|]; [|discriminate].
  cbv zeta in H.
  destruct (fdiv mass (fmul base_weight coeff)) as [factor|] eqn:Hf;
    [|discriminate].
  destruct (fill_results symbol_mass composition factor) as [filled|] eqn:Hr;
    [|discriminate].
  injection H as <-. exists base_weight, coeff, factor. auto.
Qed.

End CalculatorFacts.
(** * The parser *)

Section ParserClaims.

Context {F : Type} {PF : PyFloat F}.


(** C9.  A call of [parse_formula] works on objects of its own: run on
    any two stores of objects, whatever they hold, two calls on the same
    string either both fail, with the same exception, or both return a
    dictionary, and the two dictionaries are equal; the one returned is a new
    object each time, it holds what [parse_formula] computes from the string
    alone, and no object that was in the store before the call is written
    to.  So nothing a call leaves behind reaches a later call, and a later
    call changes nothing an earlier one returned. *)
Theorem parse_formula_stateless : forall formula (h k : store (F:=F)),
  match parse_call formula h, parse_call formula k with
  | Ok (root1, h'), Ok (root2, k') =>
      load k' root2 = load h' root1
      /\ parse_formula formula = Ok (load k' root2)
      /\ List.length k <= root2 < List.length k'
      /\ forall a, a < List.length k -> load k' a = load k a
  | Raise e1, Raise e2 => e1 = e2
  | _, _ => False
  end.
Proof.
  intros formula h k.
  pose proof (parse_call_agrees formula h) as Hh.
  pose proof (parse_call_agrees formula k) as Hk.
  destruct (parse_call formula h) as [[root1 h']|e1],
           (parse_call formula k) as [[root2 k']|e2].
  - destruct Hh as [Hh _]. destruct Hk as [Hk Hrest].
    split; [congruence|]. split; [exact Hk|exact Hrest].
  - destruct Hh as [Hh _]. congruence.
  - destruct Hk as [Hk _]. congruence.
  - congruence.
Qed.

End ParserClaims.

(** * The calculation *)

Section CalculatorClaims.

Context {F : Type} {PF : PyFloat F}.

Variable symbol_mass : string -> result F.

(** C5, as amended.  For a composition, a reference element present in
    it with a known atomic weight and a positive reference mass, provided
    the division [mass / (base_weight * composition[reference])] is defined
    (the product is not zero) and the lookup of every element of the
    composition returns, the calculation returns a table in which every
    element [e] of coefficient [c] whose atomic weight is available holds
    [weight(e) * c * factor] written with five decimals. *)
Theorem calculate_required_masses :
  forall (composition : dict F) selected_elem mass base_weight coeff factor,
  dict_wf composition ->
  le_zero mass = false ->
  get_atomic_weight symbol_mass selected_elem = Ok (Some base_weight) ->
  dict_get composition selected_elem = Some coeff ->
  fdiv mass (fmul base_weight coeff) = Some factor ->
  (forall elem, In elem (keys composition) ->
     exists atomic_weight,
       get_atomic_weight symbol_mass elem = Ok atomic_weight) ->
  exists results,
    calculate symbol_mass composition selected_elem mass = Table results
    /\ forall elem c atomic_weight,
         dict_get composition elem = Some c ->
         get_atomic_weight symbol_mass elem = Ok (Some atomic_weight) ->
         truthy atomic_weight = true ->
         dict_get results elem
         = Some (Mass (format_5f (fmul (fmul atomic_weight c) factor))).
Proof.
  intros composition selected_elem mass base_weight coeff factor
         Hwf Hmass Hw Hc Hf Hall.
  rewrite (calculate_loop symbol_mass composition selected_elem mass
             base_weight coeff factor Hmass Hw Hc Hf).
  rewrite fill_results_rows by exact Hwf.
  apply first_failure_none in Hall. rewrite Hall.
  eexists. split; [reflexivity|].
  intros elem c atomic_weight Helem Hweight Htruthy.
  rewrite (dict_get_rows F cell
             (fun e c' => result_row factor c' (weight_of symbol_mass e))).
  rewrite Helem. cbn [option_map].
  rewrite (weight_of_returned symbol_mass elem _ Hweight).
  unfold result_row, usable, required. rewrite Htruthy. reflexivity.
Qed.



End CalculatorClaims.

(** ** The calculation on binary64 *)

Lemma positive_not_le_zero : forall x : float,
  PrimFloat.ltb 0 x = true -> PrimFloat.leb x 0 = false.
Proof.
  intros x H. rewrite FloatAxioms.ltb_spec in H. rewrite FloatAxioms.leb_spec.
  change (Prim2SF 0) with (S754_zero false) in *.
  destruct (Prim2SF x) as [s|s| |s m e]; try destruct s; try discriminate;
    reflexivity.
Qed.

Lemma positive_truthy : forall x : float,
  PrimFloat.ltb 0 x = true -> PrimFloat.eqb x 0 = false.
Proof.
  intros x H. rewrite FloatAxioms.ltb_spec in H. rewrite FloatAxioms.eqb_spec.
  change (Prim2SF 0) with (S754_zero false) in *.
  destruct (Prim2SF x) as [s|s| |s m e]; try destruct s; try discriminate;
    reflexivity.
Qed.

Lemma binary64_fdiv : forall x y factor : float,
  fdiv x y = Some factor ->
  PrimFloat.eqb y 0 = false /\ factor = PrimFloat.div x y.
Proof.
  intros x y factor H.
  change (fdiv x y)
    with (if PrimFloat.eqb y 0 then None else Some (PrimFloat.div x y)) in H.
  destruct (PrimFloat.eqb y 0); [discriminate|].
  injection H as <-. split; reflexivity.
Qed.



(** * The program on binary64 floats *)


(** C2, the code at the failing input.  Whatever token follows a
    close-bracket, the loop resumes after it.  The multiplier defaults to
    1.0, but the token that follows a close-bracket without multiplier is
    lost: in [Mg(OH)Cl] the chlorine is not counted, the result is that of
    [Mg(OH)], although [MgCl(OH)] counts it; and [(OH)(OH)], whose second
    open-bracket is lost in the same way, fails. *)
Theorem token_after_close_bracket_lost :
  (forall next rest (stack : list (dict float)),
     parse_loop (")" :: next :: rest) stack
     = (multiplier <- number_or_one (Some next) ;;
        stack' <- close_group stack multiplier ;;
        parse_loop rest stack'))
  /\ findall "Mg(OH)Cl" = ["Mg"; "("; "O"; "H"; ")"; "Cl"]
  /\ parse_formula (F:=float) "Mg(OH)Cl"
     = Ok [("Mg", 1%float); ("O", 1%float); ("H", 1%float)]
  /\ parse_formula (F:=float) "Mg(OH)"
     = Ok [("Mg", 1%float); ("O", 1%float); ("H", 1%float)]
  /\ parse_formula (F:=float) "MgCl(OH)"
     = Ok [("Mg", 1%float); ("Cl", 1%float); ("O", 1%float); ("H", 1%float)]
  /\ parse_formula (F:=float) "(OH)(OH)" = Raise IndexError.
Proof. split; [reflexivity|]. vm_compute. repeat split. Qed.

(** C3.  The five formulas of the specification parse to the
    compositions it gives, in that order of symbols. *)
Theorem parse_formula_examples :
  parse_formula (F:=float) "H2O" = Ok [("H", 2%float); ("O", 1%float)]
  /\ parse_formula (F:=float) "Fe0.5O1.5"
     = Ok [("Fe", 0.5%float); ("O", 1.5%float)]
  /\ parse_formula (F:=float) "Fe(OH)2"
     = Ok [("Fe", 1%float); ("O", 2%float); ("H", 2%float)]
  /\ parse_formula (F:=float) "Al2(SO4)3"
     = Ok [("Al", 2%float); ("S", 3%float); ("O", 12%float)]
  /\ parse_formula (F:=float) "NaCl" = Ok [("Na", 1%float); ("Cl", 1%float)].
Proof. vm_compute. repeat split. Qed.

(** C4, the code at the failing input.  In [O(H)O] oxygen stands twice
    at top level; the second [O] is the token after a close-bracket without
    multiplier, which the loop passes over, so the composition counts
    oxygen once.  Read as the specification reads them, the tokens hand
    oxygen two contributions, of sum 2, and with the group moved to the end,
    [OO(H)], the code does sum them. *)
Theorem repeated_symbol_after_group_not_summed :
  findall "O(H)O" = ["O"; "("; "H"; ")"; "O"]
  /\ parse_formula (F:=float) "O(H)O" = Ok [("O", 1%float); ("H", 1%float)]
  /\ spec_root_contributions (F:=float) (findall "O(H)O")
     = Ok [("O", 1%float); ("H", 1%float); ("O", 1%float)]
  /\ coefficient "O" [("O", 1%float); ("H", 1%float); ("O", 1%float)]
     = Some 2%float
  /\ parse_formula (F:=float) "OO(H)" = Ok [("O", 2%float); ("H", 1%float)].
Proof. vm_compute. repeat split. Qed.

(** C5, counterexample.  [H0O] parses; hydrogen is in the composition,
    its weight is known and the reference mass is positive, yet the division
    by [1.008 * 0.0] raises and no required mass is produced.  And [H2OZz]
    parses; with hydrogen as the reference and a lookup that raises
    [ValueError] for [Zz], the calculation ends in that exception and
    produces no required mass for hydrogen or oxygen either. *)
Lemma calculate_divides_by_zero :
  parse_formula (F:=float) "H0O" = Ok [("H", 0%float); ("O", 1%float)]
  /\ dict_get [("H", 0%float); ("O", 1%float)] "H" = Some 0%float
  /\ get_atomic_weight sample_table "H" = Ok (Some hydrogen_weight)
  /\ le_zero 1%float = false
  /\ calculate sample_table [("H", 0%float); ("O", 1%float)] "H" 1%float
     = Uncaught ZeroDivisionError
  /\ parse_formula (F:=float) "H2OZz"
     = Ok [("H", 2%float); ("O", 1%float); ("Zz", 1%float)]
  /\ get_atomic_weight sample_table "O" = Ok (Some oxygen_weight)
  /\ calculate sample_table
       [("H", 2%float); ("O", 1%float); ("Zz", 1%float)] "H" 1%float
     = Uncaught ValueError.
Proof. vm_compute. repeat split. Qed.





(** * Instances of the theorems *)


Lemma calculate_required_masses_witness :
  exists results,
    calculate sample_table water "H" 1%float = Table results
    /\ forall elem c atomic_weight,
         dict_get water elem = Some c ->
         get_atomic_weight sample_table elem = Ok (Some atomic_weight) ->
         truthy atomic_weight = true ->
         dict_get results elem
         = Some (Mass (format_5f
                         (fmul (fmul atomic_weight c)
                               (1 / (hydrogen_weight * 2))%float))).
Proof.
  assert (Hmass : le_zero 1%float = false) by reflexivity.
  apply (calculate_required_masses sample_table water "H" 1%float
           hydrogen_weight 2%float (1 / (hydrogen_weight * 2))%float).
  - repeat constructor; simpl; intuition discriminate.
  - exact Hmass.
  - reflexivity.
  - reflexivity.
  - vm_compute. reflexivity.
  - intros elem [<-|[<-|[]]]; eexists; reflexivity.
Defined.





(** * Further properties of the tokenizer *)

Lemma digits_split : forall s, s = digits_of s ++ after_digits s.
Proof.
  induction s as [|c s IH]; simpl; [reflexivity|].
  destruct (is_digit c); simpl; [f_equal; exact IH|reflexivity].
Qed.

Lemma append_assoc : forall a b c : string, (a ++ b) ++ c = a ++ (b ++ c).
Proof.
  induction a as [|x a IH]; intros b c; simpl; [reflexivity|].
  f_equal. apply IH.
Qed.

Lemma append_length : forall a b : string,
  String.length (a ++ b) = String.length a + String.length b.
Proof.
  induction a as [|x a IH]; intro b; simpl; [reflexivity|f_equal; apply IH].
Qed.

Lemma nonempty_cons : forall s,
  nonempty s = true -> exists c s', s = String c s'.
Proof. intros [|c s'] H; [discriminate|eauto]. Qed.

(** What one alternative matches at the head of [s] is a non-empty prefix
    of [s]. *)
Lemma match_element_prefix : forall s t,
  match_element s = Some t -> nonempty t = true /\ exists r, s = t ++ r.
Proof.
  intros s t H. destruct s as [|c rest]; [discriminate|]. simpl in H.
  destruct (is_upper c); [|discriminate].
  destruct rest as [|c2 rest].
  - injection H as <-. split; [reflexivity|]. exists "". reflexivity.
  - destruct (is_lower c2); injection H as <-; split; try reflexivity.
    + exists rest. reflexivity.
    + exists (String c2 rest). reflexivity.
Qed.

Lemma match_number_prefix : forall s t,
  match_number s = Some t -> nonempty t = true /\ exists r, s = t ++ r.
Proof.
  intros s t H. unfold match_number in H.
  assert (Hback : (if nonempty (digits_of s) then Some (digits_of s) else None)
                  = Some t -> nonempty t = true /\ exists r, s = t ++ r).
  { destruct (nonempty (digits_of s)) eqn:Hne; [|discriminate].
    intros [= <-]. split; [exact Hne|].
    exists (after_digits s). apply digits_split. }
  destruct (after_digits s) as [|c rest] eqn:Hafter; [auto|].
  destruct (is_dot c); [|auto].
  destruct (nonempty (digits_of rest)) eqn:Hfrac; [|auto].
  injection H as <-. split.
  - destruct (digits_of s); reflexivity.
  - exists (after_digits rest). rewrite append_assoc. simpl.
    rewrite <- (digits_split rest), <- Hafter. apply digits_split.
Qed.

Lemma match_token_prefix : forall s t,
  match_token s = Some t ->
  exists c t' r, t = String c t' /\ s = String c (t' ++ r).
Proof.
  intros s t H.
  assert (nonempty t = true /\ exists r, s = t ++ r) as [Hne [r Hr]].
  { unfold match_token in H.
    destruct (match_element s) as [e|] eqn:He.
    { injection H as <-. apply match_element_prefix. exact He. }
    destruct (match_number s) as [n|] eqn:Hn.
    { injection H as <-. apply match_number_prefix. exact Hn. }
    destruct s as [|c rest]; [discriminate|].
    destruct (Ascii.eqb_spec c "("%char) as [->|_].
    { injection H as <-. split; [reflexivity|]. exists rest. reflexivity. }
    destruct (Ascii.eqb_spec c ")"%char) as [->|_]; [|discriminate].
    injection H as <-. split; [reflexivity|]. exists rest. reflexivity. }
  destruct (nonempty_cons t Hne) as [c [t' ->]].
  exists c, t', r. split; [reflexivity|exact Hr].
Qed.

(** ** Every token is a whole symbol, a whole literal or a bracket *)

Lemma match_element_symbol : forall s t,
  match_element s = Some t -> is_symbol t = true.
Proof.
  intros s t H. destruct s as [|c rest]; [discriminate|]. simpl in H.
  destruct (is_upper c) eqn:Hc; [|discriminate].
  destruct rest as [|c2 rest].
  - injection H as <-. exact Hc.
  - destruct (is_lower c2) eqn:Hc2; injection H as <-; simpl;
      rewrite ?Hc, ?Hc2; reflexivity.
Qed.

Lemma match_number_literal : forall s t,
  match_number s = Some t -> is_literal t = true.
Proof.
  intros s t H. unfold match_number in H.
  assert (Hback : (if nonempty (digits_of s) then Some (digits_of s) else None)
                  = Some t -> is_literal t = true).
  { destruct (nonempty (digits_of s)) eqn:Hne; [|discriminate].
    intros [= <-]. unfold is_literal.
    rewrite after_digits_of_digits, digits_of_all_digits. exact Hne. }
  destruct (after_digits s) as [|c rest] eqn:Hafter; [auto|].
  destruct (is_dot c) eqn:Hdot; [|auto].
  destruct (nonempty (digits_of rest)) eqn:Hfrac; [|auto].
  injection H as <-. unfold is_literal.
  rewrite (after_digits_app s c _ (dot_not_digit c Hdot)), Hdot, Hfrac.
  rewrite after_digits_of_digits. reflexivity.
Qed.

(** X1.  Whatever the input, each token of [re.findall] is an
    open-bracket, a close-bracket, a whole element symbol (an uppercase
    letter and at most one lowercase letter) or a whole decimal literal
    (digits, or optional digits, a dot and digits); no token is empty. *)
Theorem findall_token_kinds : forall formula,
  Forall (fun t => t = "(" \/ t = ")"
                   \/ is_symbol t = true \/ is_literal t = true)
         (findall formula)
  /\ Forall (fun t => nonempty t = true) (findall formula).
Proof.
  intro formula. unfold findall. generalize 0.
  induction formula as [|c rest IH]; intro skip; simpl;
    [split; constructor|].
  destruct skip as [|k]; [|apply IH].
  destruct (match_token (String c rest)) as [t|] eqn:Ht; [|apply IH].
  destruct (IH (String.length t - 1)) as [IH1 IH2].
  split; constructor; auto.
  - unfold match_token in Ht.
    destruct (match_element (String c rest)) as [e|] eqn:He.
    { injection Ht as <-. right. right. left.
      eapply match_element_symbol; eauto. }
    destruct (match_number (String c rest)) as [n|] eqn:Hn.
    { injection Ht as <-. right. right. right.
      eapply match_number_literal; eauto. }
    destruct (Ascii.eqb c "("); [injection Ht as <-; now left|].
    destruct (Ascii.eqb c ")"); [injection Ht as <-; right; now left|].
    discriminate.
  - destruct (match_token_prefix _ _ Ht) as [x [t' [r [-> _]]]]. reflexivity.
Qed.

(** ** The tokens are cut out of the formula, in order *)

Lemma subsequence_refl : forall s, subsequence s s.
Proof. induction s; constructor; assumption. Qed.

Lemma subsequence_app : forall t x y,
  subsequence x y -> subsequence (t ++ x) (t ++ y).
Proof. induction t as [|c t IH]; intros x y H; simpl; [exact H|]. constructor. auto. Qed.

Lemma string_drop_app : forall t r, string_drop (String.length t) (t ++ r) = r.
Proof. induction t as [|c t IH]; intro r; simpl; [destruct r; reflexivity|apply IH]. Qed.

Lemma findall_from_subsequence : forall s skip,
  subsequence (join (findall_from skip s)) (string_drop skip s).
Proof.
  induction s as [|c rest IH]; intro skip.
  - destruct skip; constructor.
  - destruct skip as [|k]; [|apply IH].
    cbn [findall_from string_drop].
    destruct (match_token (String c rest)) as [t|] eqn:Ht.
    + destruct (match_token_prefix _ _ Ht) as [x [t' [r [-> Hs]]]].
      injection Hs as <- ->.
      replace (String.length (String c t') - 1) with (String.length t')
        by (simpl; lia).
      change (join (String c t' :: findall_from (String.length t') (t' ++ r)))
        with (String c (t' ++ join (findall_from (String.length t') (t' ++ r)))).
      constructor. apply subsequence_app.
      specialize (IH (String.length t')). rewrite string_drop_app in IH.
      exact IH.
    + constructor. apply (IH 0).
Qed.

(** X2.  The tokens of a formula, put end to end, are the formula with
    some characters left out: the tokenizer invents nothing and keeps the
    order. *)
Theorem findall_subsequence : forall formula,
  subsequence (join (findall formula)) formula.
Proof.
  intro formula. apply (findall_from_subsequence formula 0).
Qed.

(** ** Stray characters only separate *)

Section Stray.

Variable c : ascii.
Hypothesis Hstray : is_stray c = true.

Lemma stray_classes :
  is_upper c = false /\ is_lower c = false /\ is_digit c = false
  /\ is_dot c = false /\ Ascii.eqb c "("%char = false
  /\ Ascii.eqb c ")"%char = false.
Proof.
  unfold is_stray in Hstray. apply negb_true_iff in Hstray.
  repeat (apply orb_false_iff in Hstray as [Hstray ?]). tauto.
Qed.

Lemma digits_of_stray : forall a b, digits_of (a ++ String c b) = digits_of a.
Proof.
  destruct stray_classes as [_ [_ [Hd _]]].
  induction a as [|x a IH]; intro b; simpl.
  - now rewrite Hd.
  - destruct (is_digit x); [f_equal; apply IH|reflexivity].
Qed.

Lemma after_digits_stray : forall a b,
  after_digits (a ++ String c b) = after_digits a ++ String c b.
Proof.
  destruct stray_classes as [_ [_ [Hd _]]].
  induction a as [|x a IH]; intro b; simpl.
  - now rewrite Hd.
  - destruct (is_digit x); [apply IH|reflexivity].
Qed.

Lemma match_number_stray : forall a b,
  match_number (a ++ String c b) = match_number a.
Proof.
  destruct stray_classes as [_ [_ [_ [Hdot _]]]].
  intros a b. unfold match_number.
  rewrite digits_of_stray, after_digits_stray.
  destruct (after_digits a) as [|d r]; simpl.
  - now rewrite Hdot.
  - destruct (is_dot d); [|reflexivity]. now rewrite digits_of_stray.
Qed.

Lemma match_element_stray : forall a b,
  match_element (a ++ String c b) = match_element a.
Proof.
  destruct stray_classes as [Hu [Hl _]].
  intros [|x [|y a]] b; simpl.
  - now rewrite Hu.
  - now rewrite Hl.
  - reflexivity.
Qed.

Lemma match_token_stray : forall a b,
  match_token (a ++ String c b) = match_token a.
Proof.
  destruct stray_classes as [_ [_ [_ [_ [Ho Hc]]]]].
  intros a b. unfold match_token.
  rewrite match_element_stray, match_number_stray.
  destruct a as [|x a]; simpl; [|reflexivity].
  rewrite Ho, Hc. reflexivity.
Qed.

Lemma findall_from_stray : forall a b skip,
  skip <= String.length a ->
  findall_from skip (a ++ String c b)
  = (findall_from skip a ++ findall b)%list.
Proof.
  induction a as [|x a IH]; intros b skip Hskip.
  - simpl in Hskip. replace skip with 0 by lia.
    change ("" ++ String c b) with (String c b). cbn [findall_from].
    assert (match_token (String c b) = None) as -> by apply (match_token_stray "" b).
    reflexivity.
  - change (String x a ++ String c b) with (String x (a ++ String c b)).
    destruct skip as [|k]; cbn [findall_from].
    + change (String x (a ++ String c b)) with (String x a ++ String c b).
      rewrite match_token_stray.
      destruct (match_token (String x a)) as [t|] eqn:Ht.
      * destruct (match_token_prefix _ _ Ht) as [y [t' [r [-> Hs]]]].
        injection Hs as _ ->.
        replace (String.length (String y t') - 1) with (String.length t')
          by (simpl; lia).
        rewrite IH; [reflexivity|]. rewrite append_length. lia.
      * apply IH. lia.
    + apply IH. simpl in Hskip. lia.
Qed.

End Stray.

(** X3.  A character that no alternative of the pattern can take (a
    space, a sign, a comma ...) only separates: the tokens of a formula
    around such a character are the tokens of what stands before it, then
    the tokens of what stands after it. *)
Theorem findall_stray_separates : forall c a b,
  is_stray c = true ->
  findall (a ++ String c b) = (findall a ++ findall b)%list.
Proof.
  intros c a b H. apply findall_from_stray; [exact H|lia].
Qed.

Lemma findall_stray_separates_witness :
  findall ("Fe2" ++ String " " "O3") = (findall "Fe2" ++ findall "O3")%list.
Proof. apply findall_stray_separates. reflexivity. Defined.

(** * Further properties of the parser *)

Lemma digit_not_upper : forall c, is_digit c = true -> is_upper c = false.
Proof.
  unfold is_upper, is_digit. intros c H.
  apply andb_true_iff in H as [H1 H2]. apply Nat.leb_le in H2.
  apply andb_false_iff. left. apply Nat.leb_gt. lia.
Qed.

Lemma dot_not_upper : forall c, is_dot c = true -> is_upper c = false.
Proof. intros c H. apply Ascii.eqb_eq in H. subst c. reflexivity. Qed.

(** A token that starts a number starts with a digit or a dot: it is no
    bracket and no element symbol. *)
Lemma number_starts : forall t,
  is_number t = true ->
  exists c r, t = String c r /\ (is_digit c = true \/ is_dot c = true).
Proof.
  intros t H. unfold is_number, match_number in H.
  destruct t as [|c r]; [discriminate|]. exists c, r. split; [reflexivity|].
  simpl in H. destruct (is_digit c) eqn:Hd; [now left|]. right.
  simpl in H. destruct (is_dot c); [reflexivity|discriminate].
Qed.

Lemma number_not_element : forall t,
  is_number t = true ->
  String.eqb t "(" = false /\ String.eqb t ")" = false
  /\ is_element t = false.
Proof.
  intros t H. destruct (number_starts t H) as [c [r [-> Hc]]].
  assert (is_upper c = false) as Hu
    by (destruct Hc; [apply digit_not_upper|apply dot_not_upper]; assumption).
  repeat split.
  - apply String.eqb_neq. intros [= -> _]. destruct Hc; discriminate.
  - apply String.eqb_neq. intros [= -> _]. destruct Hc; discriminate.
  - unfold is_element. simpl. rewrite Hu. reflexivity.
Qed.

Section ParserMore.

Context {F : Type} {PF : PyFloat F}.

(** X6.  A number that stands where no element symbol or close-bracket
    precedes it is passed over: at a number token the loop moves on with
    the stack as it is, so a leading coefficient as in [2H2O] changes
    nothing. *)
Theorem stray_number_ignored : forall t rest (stack : list (dict F)),
  is_number t = true ->
  parse_loop (t :: rest) stack = parse_loop rest stack
  /\ parse_tokens (F:=F) (t :: rest) = parse_tokens rest.
Proof.
  intros t rest stack H.
  destruct (number_not_element t H) as [Ho [Hc He]].
  assert (forall s : list (dict F), parse_loop (t :: rest) s = parse_loop rest s)
    as Hstep by (intro s; rewrite parse_loop_cons, Ho, Hc, He; reflexivity).
  split; [apply Hstep|]. unfold parse_tokens. rewrite Hstep. reflexivity.
Qed.

Lemma flat_cons : forall t tokens,
  flat (t :: tokens) = true ->
  String.eqb t "(" = false /\ String.eqb t ")" = false /\ flat tokens = true.
Proof.
  intros t tokens H. simpl in H. apply andb_true_iff in H as [H1 H2].
  apply andb_true_iff in H1 as [Ho Hc].
  apply negb_true_iff in Ho, Hc. tauto.
Qed.

(** A stretch of tokens without brackets adds to the top group, whatever
    lies below it and whatever bracket follows. *)
Lemma parse_loop_flat : forall pre (top : dict F),
  Forall (float_safe (F:=F)) pre ->
  flat pre = true ->
  exists top',
    forall below,
      parse_loop pre (top :: below) = Ok (top' :: below)
      /\ forall b rest,
           is_number b = false ->
           parse_loop (pre ++ b :: rest)%list (top :: below)
           = parse_loop (b :: rest) (top' :: below).
Proof.
  induction pre as [pre IH] using tokens_ind.
  intros top Hsafe Hflat. destruct pre as [|token pre'].
  { exists top. intro below. split; reflexivity. }
  inversion Hsafe as [|? ? Htoken Hpre']; subst.
  destruct (flat_cons _ _ Hflat) as [Ho [Hc Hflat']].
  destruct (is_element token) eqn:Helem.
  - destruct pre' as [|next pre''].
    + exists (dict_add top token fone). intro below. split.
      * rewrite parse_loop_cons, Ho, Hc, Helem. reflexivity.
      * intros b rest Hb. cbn [app].
        rewrite (parse_loop_cons token), Ho, Hc, Helem, Hb. reflexivity.
    + inversion Hpre' as [|? ? Hnext Hpre'']; subst.
      destruct (is_number next) eqn:Hn.
      * destruct (Hnext Hn) as [v Hv].
        destruct (flat_cons _ _ Hflat') as [_ [_ Hflat'']].
        destruct (IH pre'') with (top := dict_add top token v)
          as [top' Htop']; auto; [simpl; lia|].
        exists top'. intro below. destruct (Htop' below) as [Hrun Hnext'].
        split.
        -- rewrite parse_loop_cons, Ho, Hc, Helem, Hn, Hv. exact Hrun.
        -- intros b rest Hb. cbn [app].
           rewrite (parse_loop_cons token), Ho, Hc, Helem, Hn, Hv.
           apply Hnext'. exact Hb.
      * destruct (IH (next :: pre'')) with (top := dict_add top token fone)
          as [top' Htop']; auto.
        exists top'. intro below. destruct (Htop' below) as [Hrun Hnext'].
        split.
        -- rewrite parse_loop_cons, Ho, Hc, Helem, Hn. exact Hrun.
        -- intros b rest Hb. cbn [app].
           rewrite (parse_loop_cons token), Ho, Hc, Helem, Hn.
           apply Hnext'. exact Hb.
  - destruct (IH pre') with (top := top) as [top' Htop']; auto.
    exists top'. intro below. destruct (Htop' below) as [Hrun Hnext'].
    split.
    + rewrite parse_loop_cons, Ho, Hc, Helem. exact Hrun.
    + intros b rest Hb. cbn [app].
      rewrite (parse_loop_cons token), Ho, Hc, Helem. apply Hnext'. exact Hb.
Qed.

End ParserMore.

Section ParserGroups.

Context {F : Type} {PF : PyFloat F}.

Lemma stack_root_app : forall (new : list (dict F)) root,
  stack_root (new ++ [root])%list = Ok root.
Proof.
  intros new root. destruct new as [|top new]; [reflexivity|].
  simpl. f_equal. apply last_last.
Qed.

(** Without a close-bracket, what lies below the top of the stack is
    never touched. *)
Lemma parse_loop_keeps_below : forall tokens (top : dict F) mid below,
  Forall (float_safe (F:=F)) tokens ->
  ~ In ")" tokens ->
  exists top' mid',
    parse_loop tokens (top :: mid ++ below)%list
    = Ok (top' :: mid' ++ below)%list.
Proof.
  induction tokens as [tokens IH] using tokens_ind.
  intros top mid below Hsafe Hno. destruct tokens as [|token rest].
  { exists top, mid. reflexivity. }
  inversion Hsafe as [|? ? Htoken Hrest]; subst.
  assert (Hno' : ~ In ")" rest) by (intro; apply Hno; now right).
  rewrite parse_loop_cons.
  destruct (String.eqb token "(").
  { apply (IH rest) with (top := []) (mid := top :: mid); auto. }
  destruct (String.eqb_spec token ")") as [->|_].
  { exfalso. apply Hno. now left. }
  destruct (is_element token); [|apply IH; auto].
  destruct rest as [|next rest'].
  { cbn [add_element]. eauto. }
  inversion Hrest as [|? ? Hnext Hrest']; subst.
  destruct (is_number next) eqn:Hn.
  - destruct (Hnext Hn) as [v ->]. cbn [bind add_element].
    apply IH; auto; [simpl; lia|]. intro Hin. apply Hno'. now right.
  - cbn [bind add_element]. apply IH; auto.
Qed.

(** X7.  An open-bracket that is never closed drops everything from
    itself on: when the tokens before it hold no bracket and no
    close-bracket follows, the formula parses to what the part before the
    bracket parses to, without any failure. *)
Theorem unclosed_bracket_drops_rest : forall formula pre rest,
  findall formula = (pre ++ "(" :: rest)%list ->
  flat pre = true ->
  ~ In ")" rest ->
  exists composition : dict F,
    parse_tokens pre = Ok composition
    /\ parse_formula formula = Ok composition.
Proof.
  intros formula pre rest Htokens Hflat Hno.
  assert (Hsafe := findall_safe (F:=F) formula). rewrite Htokens in Hsafe.
  apply Forall_app in Hsafe as [Hpre Hrest].
  inversion Hrest as [|? ? _ Hrest']; subst.
  destruct (parse_loop_flat pre [] Hpre Hflat) as [root Hroot].
  destruct (Hroot []) as [Hrun Hnext].
  exists root. unfold parse_formula, parse_tokens. rewrite Htokens.
  split; [rewrite Hrun; reflexivity|].
  rewrite (Hnext "(" rest eq_refl), parse_loop_cons. cbn [String.eqb Ascii.eqb Bool.eqb].
  destruct (parse_loop_keeps_below rest [] [] [root] Hrest' Hno)
    as [top' [mid' Hloop]].
  cbn [app] in Hloop. rewrite Hloop. cbn [bind].
  apply (stack_root_app (top' :: mid') root).
Qed.

(** X8.  Lines 70-71, the merge of a closed group into the group below
    it: afterwards a symbol of the closed group holds [top.get(symbol, 0) +
    coefficient * multiplier], every other symbol holds what it held, and no
    symbol of either group is lost. *)
Theorem merge_group_lookup : forall (top group : dict F) multiplier elem,
  dict_wf group ->
  dict_get (merge_group top group multiplier) elem
  = match dict_get group elem with
    | Some coeff =>
        Some (fadd (or_zero (dict_get top elem)) (fmul coeff multiplier))
    | None => dict_get top elem
    end.
Proof.
  intros top group multiplier elem. revert top. unfold merge_group.
  induction group as [|[k v] group IH]; intros top Hwf; [reflexivity|].
  inversion Hwf as [|? ? Hk Hwf']; subst.
  cbn [fold_left fst snd dict_get]. rewrite IH by exact Hwf'.
  rewrite dict_get_add.
  destruct (String.eqb_spec k elem) as [->|Hneq].
  - rewrite (dict_get_absent _ group elem Hk). reflexivity.
  - reflexivity.
Qed.

(** X9.  A formula made of a bracket-free part, then one bracketed
    bracket-free group with its multiplier, parses to the composition of the
    first part with the composition of the group merged into it, each
    coefficient of the group times the multiplier ([Fe(OH)2],
    [Al2(SO4)3]). *)
Theorem bracket_group_merges : forall formula pre inner n,
  findall formula = (pre ++ "(" :: inner ++ [")"; n])%list ->
  flat pre = true ->
  flat inner = true ->
  is_number n = true ->
  exists (before group : dict F) multiplier,
    float_of_token n = Ok multiplier
    /\ parse_tokens pre = Ok before
    /\ parse_tokens inner = Ok group
    /\ parse_formula formula = Ok (merge_group before group multiplier).
Proof.
  intros formula pre inner n Htokens Hpre_flat Hinner_flat Hn.
  assert (Hsafe := findall_safe (F:=F) formula). rewrite Htokens in Hsafe.
  apply Forall_app in Hsafe as [Hpre Hrest].
  inversion Hrest as [|? ? _ Hrest']; subst.
  apply Forall_app in Hrest' as [Hinner Hclose].
  inversion Hclose as [|? ? _ Hclose']; subst.
  inversion Hclose' as [|? ? Hsafe_n _]; subst.
  destruct (Hsafe_n Hn) as [m Hm].
  destruct (parse_loop_flat pre [] Hpre Hpre_flat) as [before Hbefore].
  destruct (Hbefore []) as [Hrun_pre Hnext_pre].
  destruct (parse_loop_flat inner [] Hinner Hinner_flat) as [group Hgroup].
  exists before, group, m. split; [exact Hm|].
  unfold parse_formula, parse_tokens. rewrite Htokens.
  split; [rewrite Hrun_pre; reflexivity|].
  split; [rewrite (proj1 (Hgroup [])); reflexivity|].
  rewrite (Hnext_pre "(" _ eq_refl), parse_loop_cons.
  cbn [String.eqb Ascii.eqb Bool.eqb].
  destruct (Hgroup [before]) as [_ Hnext_inner].
  rewrite (Hnext_inner ")" [n] eq_refl), parse_loop_cons.
  cbn [String.eqb Ascii.eqb Bool.eqb hd_error number_or_one].
  rewrite Hn, Hm. cbn [bind close_group].
  destruct group; reflexivity.
Qed.

End ParserGroups.

Section ParserSymbols.

Context {F : Type} {PF : PyFloat F}.

Lemma symbols_distinct : forall group : contributions (F:=F),
  symbols group = distinct (map fst group).
Proof.
  induction group as [|item group IH]; [reflexivity|].
  simpl. rewrite IH. reflexivity.
Qed.

Lemma distinct_incl : forall l x, In x (distinct l) -> In x l.
Proof.
  induction l as [|y l IH]; intros x H; [exact H|].
  simpl in H. destruct H as [H|H]; [now left|].
  right. apply IH. apply filter_In in H. tauto.
Qed.

Lemma group_coefficients_symbols :
  forall (P : string -> Prop) (group : contributions (F:=F)) multiplier,
  Forall P (map fst group) ->
  Forall P (map fst (map (fun item : string * F =>
                            (fst item, fmul (snd item) multiplier))
                         (group_coefficients group))).
Proof.
  intros P group multiplier H. rewrite map_map. cbn [fst].
  unfold group_coefficients. rewrite map_map. cbn [fst]. rewrite map_id.
  rewrite symbols_distinct. apply Forall_forall. intros x Hx.
  apply distinct_incl in Hx. revert x Hx. apply Forall_forall. exact H.
Qed.

(** Every symbol that receives a contribution is an element token read
    by the loop. *)
Lemma contribution_loop_symbols :
  forall (P : string -> Prop) tokens (stack stack' : list contributions),
  (forall t, In t tokens -> is_element t = true -> P t) ->
  Forall (fun group : contributions (F:=F) => Forall P (map fst group)) stack ->
  contribution_loop tokens stack = Ok stack' ->
  Forall (fun group : contributions (F:=F) => Forall P (map fst group)) stack'.
Proof.
  intro P. induction tokens as [tokens IH] using tokens_ind.
  intros stack stack' Htokens Hstack Hrun.
  destruct tokens as [|token rest].
  { injection Hrun as <-. exact Hstack. }
  assert (Hrest : forall t, In t rest -> is_element t = true -> P t)
    by (intros t Ht; apply Htokens; now right).
  cbn [contribution_loop] in Hrun.
  destruct (String.eqb token "(").
  { apply (IH rest) with (stack := [] :: stack); auto. }
  destruct (String.eqb token ")").
  { destruct (number_or_one (hd_error rest)) as [m|e]; [|discriminate].
    cbn [bind] in Hrun.
    assert (Hclose : forall closed, close_contributions stack m = Ok closed ->
              Forall (fun group : contributions (F:=F) =>
                        Forall P (map fst group)) closed).
    { intros closed Hc. destruct stack as [|group popped]; [discriminate|].
      inversion Hstack as [|? ? Hgroup Hpopped]; subst.
      destruct group as [|item group].
      - injection Hc as <-. exact Hpopped.
      - destruct popped as [|top below]; [discriminate|].
        injection Hc as <-.
        inversion Hpopped as [|? ? Htop Hbelow]; subst.
        constructor; [|exact Hbelow]. rewrite map_app.
        apply Forall_app. split; [exact Htop|].
        exact (group_coefficients_symbols P (item :: group) m Hgroup). }
    destruct (close_contributions stack m) as [closed|e]; [|discriminate].
    cbn [bind] in Hrun. specialize (Hclose closed eq_refl).
    destruct rest as [|next rest'].
    - injection Hrun as <-. exact Hclose.
    - apply (IH rest') with (stack := closed); auto.
      + simpl. lia.
      + intros t Ht. apply Hrest. now right. }
  destruct (is_element token) eqn:Helem;
    [|apply (IH rest) with (stack := stack); auto].
  assert (Hadd : forall count added, contribute stack token count = Ok added ->
            Forall (fun group : contributions (F:=F) =>
                      Forall P (map fst group)) added).
  { intros count added Ha. destruct stack as [|top below]; [discriminate|].
    injection Ha as <-. inversion Hstack as [|? ? Htop Hbelow]; subst.
    constructor; [|exact Hbelow]. rewrite map_app. apply Forall_app.
    split; [exact Htop|]. repeat constructor.
    apply Htokens; [now left|exact Helem]. }
  destruct rest as [|next rest'].
  { eapply Hadd; eauto. }
  destruct (is_number next).
  - destruct (float_of_token next) as [count|e]; [|discriminate].
    cbn [bind] in Hrun.
    destruct (contribute stack token count) as [added|e] eqn:Ha;
      [|discriminate].
    cbn [bind] in Hrun. apply (IH rest') with (stack := added); eauto.
    + simpl. lia.
    + intros t Ht. apply Hrest. now right.
  - destruct (contribute stack token fone) as [added|e] eqn:Ha;
      [|discriminate].
    cbn [bind] in Hrun. apply (IH (next :: rest')) with (stack := added); eauto.
Qed.

(** X4.  Every key of a composition returned by [parse_formula] is a
    token of the formula that matches the element pattern: no key is a
    number, a bracket or a string that is not in the formula. *)
Theorem composition_keys_are_element_tokens :
  forall formula (composition : dict F) key,
  parse_formula formula = Ok composition ->
  In key (keys composition) ->
  In key (findall formula) /\ is_element key = true.
Proof.
  intros formula composition key Hparse Hkey.
  apply parse_tokens_contributions in Hparse as [group [Hroot ->]].
  rewrite keys_totals, symbols_distinct in Hkey. apply distinct_incl in Hkey.
  unfold root_contributions in Hroot.
  destruct (contribution_loop (findall formula) [[]]) as [stack|e] eqn:Hloop;
    [|discriminate].
  cbn [bind] in Hroot. destruct stack as [|top below]; [discriminate|].
  injection Hroot as <-.
  assert (Hall : Forall (fun group : contributions (F:=F) =>
                           Forall (fun t => In t (findall formula)
                                            /\ is_element t = true)
                                  (map fst group)) (top :: below)).
  { apply (contribution_loop_symbols _ (findall formula) [[]]);
      [tauto|repeat constructor|exact Hloop]. }
  assert (In (last below top) (top :: below)) as Hin.
  { clear. destruct below as [|x below]; [now left|]. right.
    assert (x :: below <> []) as Hne by discriminate.
    apply (app_removelast_last top) in Hne.
    apply (in_or_app (removelast (x :: below)) [last (x :: below) top]) with
      (a := last (x :: below) top) in Hne || idtac.
    rewrite Hne at 2. apply in_or_app. right. now left. }
  rewrite Forall_forall in Hall. specialize (Hall _ Hin).
  rewrite Forall_forall in Hall. apply Hall. exact Hkey.
Qed.

(** Bracket-free tokens contribute to the top group one after the other,
    each element token once. *)
Lemma contribution_loop_flat :
  forall tokens (group : contributions (F:=F)) below,
  Forall (float_safe (F:=F)) tokens ->
  flat tokens = true ->
  exists added,
    contribution_loop tokens (group :: below)
    = Ok ((group ++ added)%list :: below)
    /\ map fst added = filter is_element tokens.
Proof.
  induction tokens as [tokens IH] using tokens_ind.
  intros group below Hsafe Hflat. destruct tokens as [|token rest].
  { exists []. rewrite app_nil_r. split; reflexivity. }
  inversion Hsafe as [|? ? Htoken Hrest]; subst.
  destruct (flat_cons _ _ Hflat) as [Ho [Hc Hflat']].
  cbn [contribution_loop filter]. rewrite Ho, Hc.
  destruct (is_element token) eqn:Helem.
  - destruct rest as [|next rest'].
    + exists [(token, fone)]. split; reflexivity.
    + inversion Hrest as [|? ? Hnext Hrest']; subst.
      destruct (is_number next) eqn:Hn.
      * destruct (Hnext Hn) as [v ->]. cbn [bind contribute].
        destruct (flat_cons _ _ Hflat') as [_ [_ Hflat'']].
        destruct (IH rest') with (group := (group ++ [(token, v)])%list)
          (below := below) as [added [Hrun Hfst]]; auto; [simpl; lia|].
        exists ((token, v) :: added). split.
        -- etransitivity; [exact Hrun|]. rewrite <- app_assoc. reflexivity.
        -- cbn [map fst filter].
           destruct (number_not_element next Hn) as [_ [_ ->]].
           f_equal. exact Hfst.
      * cbn [bind contribute].
        destruct (IH (next :: rest'))
          with (group := (group ++ [(token, fone)])%list) (below := below)
          as [added [Hrun Hfst]]; auto.
        exists ((token, fone) :: added). split.
        -- etransitivity; [exact Hrun|]. rewrite <- app_assoc. reflexivity.
        -- cbn [map fst]. f_equal. exact Hfst.
  - apply IH; auto.
Qed.

(** X5.  In a formula without brackets no element symbol is lost and
    nothing fails: the keys of the composition are the element tokens of
    the formula, each once, in order of first occurrence. *)
Theorem flat_formula_keys : forall formula,
  flat (findall formula) = true ->
  exists composition : dict F,
    parse_formula formula = Ok composition
    /\ keys composition = distinct (filter is_element (findall formula)).
Proof.
  intros formula Hflat.
  destruct (contribution_loop_flat (findall formula) [] []
              (findall_safe formula) Hflat) as [added [Hrun Hfst]].
  exists (totals added). split.
  - unfold parse_formula, parse_tokens.
    assert (Hloop : parse_loop (findall formula) [[]] = Ok [totals added]).
    { etransitivity;
        [exact (contribution_loop_refines (findall formula) [[]])|].
      etransitivity; [exact (f_equal dictionaries Hrun)|]. reflexivity. }
    rewrite Hloop. reflexivity.
  - rewrite keys_totals, symbols_distinct, Hfst. reflexivity.
Qed.

End ParserSymbols.

(** * Further properties of the calculation *)

Section CalculatorMore.

Context {F : Type} {PF : PyFloat F}.

Variable symbol_mass : string -> result F.


Lemma fill_loop_marks : forall (P : cell -> Prop) items factor results filled,
  (forall elem coeff atomic_weight,
     In (elem, coeff) items ->
     get_atomic_weight symbol_mass elem = Ok atomic_weight ->
     P (result_row factor coeff atomic_weight)) ->
  Forall (fun row : string * cell => P (snd row)) results ->
  fill_loop symbol_mass items factor results = Ok filled ->
  Forall (fun row : string * cell => P (snd row)) filled.
Proof.
  intros P. induction items as [|[elem coeff] rest IH];
    intros factor results filled Hrow Hresults H; cbn [fill_loop] in H.
  { injection H as <-. exact Hresults. }
  unfold required_of in H. cbn [fst snd] in H.
  destruct (get_atomic_weight symbol_mass elem) as [w|] eqn:Hw;
    [|discriminate].
  cbn [bind] in H. apply (IH factor _ filled) in H; [exact H| |].
  - intros elem' coeff' w' Hin. apply Hrow. now right.
  - specialize (Hrow elem coeff w (or_introl eq_refl) Hw).
    unfold result_row in Hrow.
    assert (Hcell : P (render (match usable w with
                               | Some weight =>
                                   Some (required weight coeff factor)
                               | None => None
                               end)))
      by (destruct (usable w); exact Hrow).
    revert Hcell. generalize (render (match usable w with
                                      | Some weight =>
                                          Some (required weight coeff factor)
                                      | None => None
                                      end)).
    intros value Hvalue. clear - Hresults Hvalue.
    induction Hresults as [|[k v] results Hv Hresults IH]; cbn [dict_set].
    + repeat constructor. exact Hvalue.
    + destruct (String.eqb k elem); constructor; auto.
Qed.


(** X12.  From a formula to the two tables.  When a formula parses, the
    table of its composition is built, the reference element is one of the
    keys and the mass is positive, the calculation ends in the
    missing-weight message if the lookup of the reference returned [None],
    in [ZeroDivisionError] if the division by the base mass fails, and
    otherwise in a table with one row per row of the table of the
    composition, in the same order, made from what that row shows: the
    required mass where it shows a weight, the unavailable mark where it
    shows none. *)
Theorem parse_then_calculate :
  forall formula (composition : dict F) table selected_elem mass,
  parse_formula formula = Ok composition ->
  composition_table symbol_mass composition = Ok table ->
  In selected_elem (keys composition) ->
  le_zero mass = false ->
  exists coeff looked_up,
    dict_get composition selected_elem = Some coeff
    /\ get_atomic_weight symbol_mass selected_elem = Ok looked_up
    /\ calculate symbol_mass composition selected_elem mass
       = match looked_up with
         | None => NoAtomicWeight selected_elem
         | Some base_weight =>
             match fdiv mass (fmul base_weight coeff) with
             | None => Uncaught ZeroDivisionError
             | Some factor =>
                 Table (map (fun row : string * (F * weight_cell F) =>
                               (fst row,
                                match snd (snd row) with
                                | Weight weight =>
                                    Mass (format_5f
                                            (required weight (fst (snd row))
                                                      factor))
                                | UnknownWeight => Unavailable
                                end))
                            table)
             end
         end.
Proof.
  intros formula composition table selected_elem mass
         Hparse Htable Hkey Hmass.
  rewrite composition_table_rows in Htable.
  destruct (first_failure symbol_mass (keys composition)) eqn:Hfirst;
    [discriminate|].
  injection Htable as <-.
  destruct (dict_get_present F composition selected_elem Hkey) as [coeff Hc].
  destruct (proj1 (first_failure_none symbol_mass (keys composition)) Hfirst
                  selected_elem Hkey) as [looked_up Hw].
  exists coeff, looked_up. split; [exact Hc|]. split; [exact Hw|].
  unfold calculate. rewrite Hmass, Hw, Hc.
  destruct looked_up as [base_weight|]; [|reflexivity].
  cbv zeta. destruct (fdiv mass (fmul base_weight coeff)) as [factor|];
    [|reflexivity].
  rewrite fill_results_rows by (eapply parse_formula_wf; eauto).
  rewrite Hfirst. f_equal. rewrite map_map. apply map_ext.
  intros [elem c]. cbn [fst snd]. f_equal.
  unfold result_row, shown_row.
  destruct (usable (weight_of symbol_mass elem)); reflexivity.
Qed.

(** X13.  The "Enter" button: a formula without any token is reported as
    parsed and replaces the stored composition by the empty one; a formula
    on which the parser fails is reported as failed and leaves the stored
    composition as it was, so that "Calculate" goes on with the composition
    of the formula typed before. *)
Theorem press_enter_edges :
  forall formula (session : option (dict F)) selected_elem mass,
  (findall formula = [] ->
   press_enter formula session = (Some [], ParseSucceeded))
  /\ (forall e, parse_formula (F:=F) formula = Raise e ->
        press_enter formula session = (session, ParseFailed IndexError)
        /\ press_calculate symbol_mass
             (fst (press_enter formula session)) selected_elem mass
           = press_calculate symbol_mass session selected_elem mass).
Proof.
  intros formula session selected_elem mass. split.
  - intro Hnone. unfold press_enter, parse_formula. rewrite Hnone.
    reflexivity.
  - intros e He. unfold press_enter. rewrite He.
    assert (e = IndexError) as ->.
    { unfold parse_formula, parse_tokens in He.
      destruct (parse_loop (findall formula) [[]]) as [stack|e'] eqn:Hloop.
      - destruct stack; simpl in He; congruence.
      - simpl in He. injection He as <-.
        eapply parse_loop_raise; [apply findall_safe|exact Hloop]. }
    split; reflexivity.
Qed.


End CalculatorMore.

(** * Further properties of the coefficients *)

Section CoefficientSums.

Context {F : Type} {PF : PyFloat F}.


End CoefficientSums.

(** * Instances of the further properties *)

Lemma composition_keys_are_element_tokens_witness :
  In "O" (findall "Fe(OH)2") /\ is_element "O" = true.
Proof.
  apply (composition_keys_are_element_tokens (F:=float) "Fe(OH)2"
           [("Fe", 1%float); ("O", 2%float); ("H", 2%float)] "O").
  - vm_compute. reflexivity.
  - right. left. reflexivity.
Defined.

Lemma flat_formula_keys_witness :
  exists composition : dict float,
    parse_formula "CH3COOH" = Ok composition
    /\ keys composition
       = distinct (filter is_element (findall "CH3COOH")).
Proof.
  apply (flat_formula_keys (F:=float) "CH3COOH"). vm_compute. reflexivity.
Defined.

Lemma stray_number_ignored_witness :
  parse_loop (F:=float) ["2"; "H"; "2"; "O"] [[]]
  = parse_loop ["H"; "2"; "O"] [[]]
  /\ parse_tokens (F:=float) ["2"; "H"; "2"; "O"]
     = parse_tokens ["H"; "2"; "O"].
Proof.
  apply (stray_number_ignored (F:=float) "2" ["H"; "2"; "O"] [[]]).
  reflexivity.
Defined.

Lemma unclosed_bracket_drops_rest_witness :
  exists composition : dict float,
    parse_tokens ["Fe"] = Ok composition
    /\ parse_formula "Fe(OH" = Ok composition.
Proof.
  apply (unclosed_bracket_drops_rest (F:=float) "Fe(OH" ["Fe"] ["O"; "H"]).
  - vm_compute. reflexivity.
  - reflexivity.
  - intros [H|[H|[]]]; discriminate H.
Defined.

Lemma merge_group_lookup_witness :
  dict_get (merge_group [("Fe", 1%float); ("O", 1%float)]
                        [("O", 1%float); ("H", 1%float)] 2%float) "O"
  = match dict_get [("O", 1%float); ("H", 1%float)] "O" with
    | Some coeff =>
        Some (fadd (or_zero (dict_get [("Fe", 1%float); ("O", 1%float)] "O"))
                   (fmul coeff 2%float))
    | None => dict_get [("Fe", 1%float); ("O", 1%float)] "O"
    end.
Proof.
  apply (merge_group_lookup (F:=float)).
  repeat constructor; simpl; intuition discriminate.
Defined.

Lemma bracket_group_merges_witness :
  exists (before group : dict float) multiplier,
    float_of_token "3" = Ok multiplier
    /\ parse_tokens ["Al"; "2"] = Ok before
    /\ parse_tokens ["S"; "O"; "4"] = Ok group
    /\ parse_formula "Al2(SO4)3" = Ok (merge_group before group multiplier).
Proof.
  apply (bracket_group_merges (F:=float) "Al2(SO4)3"
           ["Al"; "2"] ["S"; "O"; "4"] "3").
  - vm_compute. reflexivity.
  - reflexivity.
  - reflexivity.
  - reflexivity.
Defined.



Lemma parse_then_calculate_witness :
  exists coeff looked_up,
    dict_get water "H" = Some coeff
    /\ get_atomic_weight sample_table "H" = Ok looked_up
    /\ calculate sample_table water "H" 1%float
       = match looked_up with
         | None => NoAtomicWeight "H"
         | Some base_weight =>
             match fdiv 1%float (fmul base_weight coeff) with
             | None => Uncaught ZeroDivisionError
             | Some factor =>
                 Table (map (fun row : string * (float * weight_cell float) =>
                               (fst row,
                                match snd (snd row) with
                                | Weight weight =>
                                    Mass (format_5f
                                            (required weight (fst (snd row))
                                                      factor))
                                | UnknownWeight => Unavailable
                                end))
                            [("H", (2%float, Weight hydrogen_weight));
                             ("O", (1%float, Weight oxygen_weight))])
             end
         end.
Proof.
  assert (Hmass : le_zero 1%float = false) by reflexivity.
  apply (parse_then_calculate sample_table "H2O" water
           [("H", (2%float, Weight hydrogen_weight));
            ("O", (1%float, Weight oxygen_weight))] "H" 1%float).
  - vm_compute. reflexivity.
  - vm_compute. reflexivity.
  - left. reflexivity.
  - exact Hmass.
Defined.

Lemma press_enter_edges_witness :
  press_enter "xyz" (Some water) = (Some [], ParseSucceeded)
  /\ press_enter "Fe)O2" (Some water) = (Some water, ParseFailed IndexError)
  /\ press_calculate sample_table
       (fst (press_enter "Fe)O2" (Some water))) "H" 1%float
     = press_calculate sample_table (Some water) "H" 1%float.
Proof.
  split.
  - apply (proj1 (press_enter_edges sample_table "xyz" (Some water)
                    "H" 1%float)).
    reflexivity.
  - apply (proj2 (press_enter_edges sample_table "Fe)O2" (Some water)
                    "H" 1%float) IndexError).
    vm_compute. reflexivity.
Defined.

